(** * plytodsm: point accumulation and binning

    A shallow embedding of [c/plytodsm.c]: the PLY header parser, the record
    decoder, the mapping of world coordinates to raster cells, the running
    average of a cell, the selection of tiles and the driver [main], followed
    by the properties of the design document that were checked against it.

    Conventions of the embedding.
    - C [float] and [double] are IEEE 754 binary32 and binary64 values
      ([spec_float] of the Standard Library, round to nearest even), every
      operation rounded to the type C gives it (no excess precision, no
      fused multiply-add).
    - A conversion the C standard leaves undefined (a floating value that
      does not fit the integer type, a read of an indeterminate object, an
      access past an array) is made explicit: the function returns [None],
      and the driver ends in [Undefined].
    - A [FILE] is the text that remains to be read and its end-of-file
      indicator; the file system is a finite map from paths to contents.
    - Character arrays are strings and the array of properties is a list.
      The parser writes through the pointers it is given; the functions that
      own the arrays ([utm[3]], [t[100]] with its [name[0x100]], and the
      paths of 1000 bytes of [main]) check that what is written fits, and
      end in [Undefined] when it does not.
    - The numeric directives [%lf] and [%f] of [fscanf] are an interface,
      [Libc], that tells for the characters at hand whether a number was
      converted and where the stream is left; one instance, for plain
      decimal numerals, serves the worked examples. *)

From Stdlib Require Import ZArith QArith List String Ascii Bool Lia Permutation.
From Stdlib Require Import Floats.SpecFloat.
From stdpp Require Import base list strings gmap.

Open Scope Z_scope.

(** ** IEEE 754 formats *)

Module IEEE.

Record format := { prec : Z; emax : Z }.

Definition binary32 : format := {| prec := 24; emax := 128 |}.
Definition binary64 : format := {| prec := 53; emax := 1024 |}.

Section Ops.
Variable fmt : format.

Definition add := SFadd (prec fmt) (emax fmt).
Definition sub := SFsub (prec fmt) (emax fmt).
Definition mul := SFmul (prec fmt) (emax fmt).
Definition div := SFdiv (prec fmt) (emax fmt).

(** Conversion of an integer, rounded to the format. *)
Definition of_Z (z : Z) : spec_float :=
  binary_normalize (prec fmt) (emax fmt) z 0 false.

(** Conversion from another format: exact when the value is
    representable (binary32 to binary64), rounded otherwise. *)
Definition cast (x : spec_float) : spec_float :=
  match x with
  | S754_finite s m e => binary_round (prec fmt) (emax fmt) s m e
  | _ => x
  end.

(** The value with the given bit pattern: [ebits] exponent bits above
    [prec - 1] fraction bits, the sign on top. *)
Definition of_bits (bits : Z) : spec_float :=
  let fbits := prec fmt - 1 in
  let ebits := Z.log2 (emax fmt) + 1 in
  let frac := Z.land bits (Z.ones fbits) in
  let bexp := Z.land (Z.shiftr bits fbits) (Z.ones ebits) in
  let sign := Z.testbit bits (fbits + ebits) in
  if bexp =? 0 then
    match frac with
    | Zpos m => S754_finite sign m (3 - emax fmt - prec fmt)
    | _ => S754_zero sign
    end
  else if bexp =? Z.ones ebits then
    if frac =? 0 then S754_infinity sign else S754_nan
  else
    match Z.lor frac (Z.shiftl 1 fbits) with
    | Zpos m => S754_finite sign m (bexp - emax fmt - prec fmt + 2)
    | _ => S754_nan
    end.
End Ops.

Definition neg : spec_float -> spec_float := SFopp.
Definition eqb : spec_float -> spec_float -> bool := SFeqb.
Definition leb : spec_float -> spec_float -> bool := SFleb.

Definition nan : spec_float := S754_nan.


(** C's [isfinite]. *)
Definition isfinite (x : spec_float) : bool :=
  match x with
  | S754_zero _ | S754_finite _ _ _ => true
  | _ => false
  end.

(** The integer part of a finite value, rounded toward zero, as C's
    conversions to integer types take it. *)
Definition trunc (x : spec_float) : option Z :=
  match x with
  | S754_zero _ => Some 0
  | S754_finite s m e =>
      let a := if 0 <=? e then Z.shiftl (Zpos m) e
               else Z.shiftr (Zpos m) (- e) in
      Some (if s then - a else a)
  | _ => None
  end.

(** The largest integer not above a finite value. *)
Definition floor (x : spec_float) : option Z :=
  match x with
  | S754_zero _ => Some 0
  | S754_finite s m e =>
      Some (if 0 <=? e then (if s then - Z.shiftl (Zpos m) e
                             else Z.shiftl (Zpos m) e)
            else Z.shiftr (if s then Zneg m else Zpos m) (- e))
  | _ => None
  end.

(** Conversion to [int]: undefined when the integer part does not fit. *)
Definition to_int (x : spec_float) : option Z :=
  match trunc x with
  | Some z => if (- 2 ^ 31 <=? z) && (z <? 2 ^ 31) then Some z else None
  | None => None
  end.

(** Conversion to [unsigned int]. *)
Definition to_uint (x : spec_float) : option Z :=
  match trunc x with
  | Some z => if (0 <=? z) && (z <? 2 ^ 32) then Some z else None
  | None => None
  end.

End IEEE.

(** C's [float] is [binary32] and [double] is [binary64]; both are carried
    by [spec_float], the format being that of the operation applied. *)
Abbreviation float := spec_float (only parsing).
Abbreviation double := spec_float (only parsing).

Abbreviation b32 := IEEE.binary32 (only parsing).
Abbreviation b64 := IEEE.binary64 (only parsing).

(** ** Outcomes of a computation

    [Ok] is normal completion; [Exit] is a call of [exit] or a [return] from
    [main] that ends the run before anything is written; [Aborted] is a
    failed [assert]; [Undefined] is behaviour the C standard leaves
    undefined or that depends on an indeterminate value; [OutOfFuel] is a
    loop that did not end within the bound the model gave it. *)

Inductive outcome (A : Type) : Type :=
  | Ok (a : A)
  | Exit (code : Z)
  | Aborted
  | Undefined
  | OutOfFuel.

Arguments Ok {A} a.
Arguments Exit {A} code.
Arguments Aborted {A}.
Arguments Undefined {A}.
Arguments OutOfFuel {A}.

#[global] Instance outcome_ret : MRet outcome := fun A a => Ok a.

#[global] Instance outcome_bind : MBind outcome := fun A B k m =>
  match m with
  | Ok a => k a
  | Exit c => Exit c
  | Aborted => Aborted
  | Undefined => Undefined
  | OutOfFuel => OutOfFuel
  end.

#[global] Instance outcome_fmap : FMap outcome := fun A B g m =>
  match m with
  | Ok a => Ok (g a)
  | Exit c => Exit c
  | Aborted => Aborted
  | Undefined => Undefined
  | OutOfFuel => OutOfFuel
  end.

(** An outcome other than a loop cut short by the model. *)
Definition ends {A : Type} (o : outcome A) : Prop := o <> OutOfFuel.

(** An outcome other than a call of [exit]. *)
Definition no_exit {A : Type} (o : outcome A) : Prop :=
  forall code, o <> Exit code.

(** A value that must be determinate to be used. *)
Definition defined {A : Type} (o : option A) : outcome A :=
  match o with
  | Some a => Ok a
  | None => Undefined
  end.

(** Conversion to [uint64_t] and to [size_t]. *)
Definition u64 (z : Z) : Z := z mod 2 ^ 64.

(** ** The running average of a cell *)

(** The arithmetic the update is written in. *)
Class Arith (F : Type) : Type := {
  a_zero : F;
  a_one : F;
  a_add : F -> F -> F;
  a_mul : F -> F -> F;
  a_div : F -> F -> F
}.

(** The arithmetic of the program: C [float]. *)
#[global] Instance float_arith : Arith spec_float := {|
  a_zero := S754_zero false;
  a_one := IEEE.of_Z b32 1;
  a_add := IEEE.add b32;
  a_mul := IEEE.mul b32;
  a_div := IEEE.div b32
|}.

(** The same expressions over the rationals, free of rounding. *)
Definition Q_arith : Arith Q := {|
  a_zero := 0%Q;
  a_one := 1%Q;
  a_add := Qplus;
  a_mul := Qmult;
  a_div := Qdiv
|}.

(** The two assignments of [add_height_to_images] on one cell
    [(avg, cnt)]:
    [avg = (v + cnt * avg) / (1 + cnt); cnt += 1]. *)
Definition cell_update {F : Type} {A : Arith F} (c : F * F) (v : F) : F * F :=
  let '(avg, cnt) := c in
  (a_div (a_add v (a_mul cnt avg)) (a_add a_one cnt), a_add cnt a_one).

(** A cell as [main] initialises it, then one update per sample. *)
Definition cell_accumulate {F : Type} {A : Arith F} (vs : list F) : F * F :=
  fold_left cell_update vs (a_zero, a_zero).

(** ** The output images *)

Record images : Type := {
  cnt : list float;
  avg : list float;
  w : Z;
  h : Z
}.

(** [add_height_to_images]: update the output images with a new height.
    [None] when [k] lies outside the arrays. *)
Definition add_height_to_images (x : images) (i j : Z) (v : float)
  : option images :=
  let k := Z.to_nat (u64 (u64 (u64 (w x) * u64 j) + u64 i)) in
  match avg x !! k, cnt x !! k with
  | Some a, Some c =>
      let '(a', c') := cell_update (a, c) v in
      Some {| cnt := <[k := c']> (cnt x); avg := <[k := a']> (avg x);
              w := w x; h := h x |}
  | _, _ => None
  end.

(** The value of [w * (x - min)/(max - min)], in [double]. *)
Definition rescale_quotient (x min max : double) (w : Z) : double :=
  IEEE.div b64 (IEEE.mul b64 (IEEE.of_Z b64 w) (IEEE.sub b64 x min))
    (IEEE.sub b64 max min).

(** [rescale_float_to_int]: re-scale a float between 0 and w.  The result
    is the pair of the returned [r] and of [*flag]; [None] when the
    conversion to [int] is undefined. *)
Definition rescale_float_to_int (x min max : double) (w : Z)
  : option (Z * bool) :=
  match IEEE.to_int (rescale_quotient x min max w) with
  | Some r =>
      let flag := true in
      let flag := if r <? 0 then false else flag in
      let flag := if r >=? w then false else flag in
      Some (r, flag)
  | None => None
  end.

(** The images [main] allocates: sides that are positive values of [int],
    and one cell of each array per pixel. *)
Definition images_wf (x : images) : Prop :=
  0 < w x < 2 ^ 31 /\ 0 < h x < 2 ^ 31 /\
  length (cnt x) = Z.to_nat (w x * h x) /\
  length (avg x) = Z.to_nat (w x * h x).

(** The place of column [i], row [j] in the arrays. *)
Definition cell_index (x : images) (i j : Z) : nat := Z.to_nat (w x * j + i).

(** A run of calls of [add_height_to_images] on one cell. *)
Fixpoint add_heights (x : images) (i j : Z) (vs : list float)
  : option images :=
  match vs with
  | [] => Some x
  | v :: vs' =>
      match add_height_to_images x i j v with
      | Some x' => add_heights x' i j vs'
      | None => None
      end
  end.

(** Sum and arithmetic mean of rationals. *)
Definition Qsum (vs : list Q) : Q := fold_right Qplus 0%Q vs.

Definition Qmean (vs : list Q) : Q :=
  (Qsum vs / inject_Z (Z.of_nat (length vs)))%Q.

(** ** Characters, C strings and streams *)

Definition nl : ascii := "010"%char.
Definition NUL : ascii := "000"%char.

(** C's [isspace] in the C locale. *)
Definition isspace (c : ascii) : bool :=
  let n := N_of_ascii c in
  ((n =? 32) || ((9 <=? n) && (n <=? 13)))%N.

(** The string a character array holds: what precedes its first NUL. *)
Fixpoint c_str (s : string) : string :=
  match s with
  | EmptyString => EmptyString
  | String c s' => if Ascii.eqb c NUL then EmptyString else String c (c_str s')
  end.

Fixpoint skip_ws (s : string) : string :=
  match s with
  | String c s' => if isspace c then skip_ws s' else s
  | EmptyString => s
  end.

(** The longest prefix free of white space, and what follows it. *)
Fixpoint token (s : string) : string * string :=
  match s with
  | String c s' =>
      if isspace c then (EmptyString, s)
      else let '(t, r) := token s' in (String c t, r)
  | EmptyString => (EmptyString, EmptyString)
  end.

(** [s] without its prefix [p], when it has it. *)
Fixpoint strip_prefix (p s : string) : option string :=
  match p, s with
  | EmptyString, _ => Some s
  | String a p', String b s' =>
      if Ascii.eqb a b then strip_prefix p' s' else None
  | String _ _, EmptyString => None
  end.

(** A [%s] directive of [scanf]: white space is skipped, then a non-empty
    run of other characters is stored. *)
Definition scan_s (s : string) : option (string * string) :=
  match token (skip_ws s) with
  | (EmptyString, _) => None
  | (t, r) => Some (t, r)
  end.

(** The first [n] characters, as [strncmp] compares them. *)
Fixpoint string_take (n : nat) (s : string) : string :=
  match n, s with
  | S n', String c s' => String c (string_take n' s')
  | _, _ => EmptyString
  end.

Fixpoint string_drop (n : nat) (s : string) : string :=
  match n, s with
  | S n', String _ s' => string_drop n' s'
  | _, _ => s
  end.

(** An open stream: the characters not read yet and the end-of-file
    indicator, which a read sets when it meets the end. *)
Record FILE : Type := { rest : string; eof : bool }.

Definition fopen_contents (contents : string) : FILE :=
  {| rest := contents; eof := false |}.

Definition feof (f : FILE) : bool := eof f.

(** A bound on the reads a stream still answers before every further one
    fails: its characters, and the read that meets the end. *)
Definition stream_left (f : FILE) : nat :=
  (String.length (rest f) + if eof f then 0 else 1)%nat.

(** At most [k] characters up to and including a newline; the third
    component tells whether the end of the stream was met. *)
Fixpoint read_line (k : nat) (s : string) : string * string * bool :=
  match k with
  | O => (EmptyString, s, false)
  | S k' =>
      match s with
      | EmptyString => (EmptyString, EmptyString, true)
      | String c s' =>
          if Ascii.eqb c nl then (String c EmptyString, s', false)
          else let '(l, r, e) := read_line k' s' in (String c l, r, e)
      end
  end.

(** [fgets(buf, size, f)]: [None] is the null pointer. *)
Definition fgets (size : nat) (f : FILE) : option string * FILE :=
  let '(l, r, e) := read_line (size - 1) (rest f) in
  let f' := {| rest := r; eof := eof f || e |} in
  match l with
  | EmptyString => (None, f')
  | _ => (Some l, f')
  end.

(** [fread(&X, size, 1, f)]: the [size] bytes of one item, or nothing
    when the stream ends before the item is complete. *)
Definition fread (size : nat) (f : FILE) : option string * FILE :=
  if (size <=? String.length (rest f))%nat
  then (Some (string_take size (rest f)),
        {| rest := string_drop size (rest f); eof := eof f |})
  else (None, {| rest := EmptyString; eof := true |}).

(** The unsigned integer a sequence of bytes holds, least significant
    byte first. *)
Fixpoint le_bits (bs : string) : Z :=
  match bs with
  | EmptyString => 0
  | String b bs' => Z.of_N (N_of_ascii b) + 256 * le_bits bs'
  end.

(** [FILENAME_MAX] of the C library (glibc). *)
Definition FILENAME_MAX : nat := 4096.

(** What a numeric directive of [fscanf] does with the characters at hand,
    white space skipped and one character at least being there: a value is
    converted, or the input does not spell a number; either way the stream
    is left at [rest] (a directive that fails has used the characters it
    took for the beginning of a number, a sign for one). *)
Inductive scan : Type :=
  | Converted (v : spec_float) (rest : string)
  | Mismatch (rest : string).

(** The directives [%lf] and [%f] of the C library. *)
Class Libc : Type := {
  scan_lf : string -> scan;
  scan_f : string -> scan
}.

(** A directive that converts uses at least one character, and one that
    fails adds none. *)
Definition conversion_shrinks (conv : string -> scan) : Prop :=
  forall s,
    match conv s with
    | Converted _ r => (String.length r < String.length s)%nat
    | Mismatch r => (String.length r <= String.length s)%nat
    end.

Definition libc_shrinks (libc : Libc) : Prop :=
  conversion_shrinks scan_lf /\ conversion_shrinks scan_f.

Definition at_end (s : string) : bool :=
  match s with
  | EmptyString => true
  | _ => false
  end.

(** One [%lf] or [%f] directive of [fscanf] with conversion [conv]: the
    value of the call (1, 0 or [EOF] = -1), the value stored if any, and the
    stream afterwards. *)
Definition fscanf_float (conv : string -> scan) (f : FILE)
  : Z * option spec_float * FILE :=
  match skip_ws (rest f) with
  | EmptyString => (-1, None, {| rest := EmptyString; eof := true |})
  | s =>
      match conv s with
      | Converted v r => (1, Some v, {| rest := r; eof := eof f || at_end r |})
      | Mismatch r => (0, None, {| rest := r; eof := eof f || at_end r |})
      end
  end.

(** ** The PLY header *)

Inductive ply_type : Type := UCHAR | FLOAT | DOUBLE | UNKNOWN.

Record ply_property : Type := {
  type : ply_type;
  name : string;
  len : option Z
}.

(** [sscanf(buf, "property %s %s\n", typename, t->name)]: the two words when
    both are read. *)
Definition scan_property (buf : string) : option (string * string) :=
  match strip_prefix "property" buf with
  | Some s =>
      match scan_s s with
      | Some (typename, s') =>
          match scan_s s' with
          | Some (pname, _) => Some (typename, pname)
          | None => None
          end
      | None => None
      end
  | None => None
  end.

(** [parse_property_line]: the property stored in [*t] when the function
    returns true, [None] when it returns false (the slot is then written
    again by the next line before it is read). *)
Definition parse_property_line (buf : string) : option ply_property :=
  match scan_property buf with
  | Some (typename, pname) =>
      let t := {| type := UNKNOWN; name := pname; len := None |} in
      let t := if String.eqb typename "uchar"
               then {| type := UCHAR; name := pname; len := Some 1 |} else t in
      let t := if String.eqb typename "float"
               then {| type := FLOAT; name := pname; len := Some 4 |} else t in
      let t := if String.eqb typename "double"
               then {| type := DOUBLE; name := pname; len := Some 8 |} else t in
      Some t
  | None => None
  end.

(** [sscanf(buf, "comment projection: UTM %s", utm)]: the word stored in
    [utm], if the line gets that far. *)
Definition scan_projection (buf : string) : option string :=
  match strip_prefix "comment" buf with
  | Some s =>
      match strip_prefix "projection:" (skip_ws s) with
      | Some s =>
          match strip_prefix "UTM" (skip_ws s) with
          | Some s =>
              match scan_s s with
              | Some (zone, _) => Some zone
              | None => None
              end
          | None => None
          end
      | None => None
      end
  | None => None
  end.

Definition line (s : string) : string := s +:+ String nl EmptyString.

Definition format_binary : string := line "format binary_little_endian 1.0".
Definition format_ascii : string := line "format ascii 1.0".
Definition end_header : string := line "end_header".

(** What the header loop has gathered: the properties [t[0..n-1]] in
    order, the encoding, and the contents of [utm] ([None] while the array
    is still indeterminate). *)
Record header : Type := {
  props : list ply_property;
  isbin : bool;
  utm : option string
}.

(** One turn of the loop of [header_get_record_length_and_utm_zone] on the
    line [buf], short of the test for ["end_header\n"]. *)
Definition header_line (hd : header) (buf : string) : header :=
  if String.eqb buf format_binary
  then {| props := props hd; isbin := true; utm := utm hd |}
  else if String.eqb buf format_ascii
  then {| props := props hd; isbin := false; utm := utm hd |}
  else
    match parse_property_line buf with
    | Some p => {| props := props hd ++ [p]; isbin := isbin hd; utm := utm hd |}
    | None =>
        match strip_prefix "comment projection:" buf with
        | Some _ =>
            match scan_projection buf with
            | Some zone =>
                {| props := props hd; isbin := isbin hd; utm := Some zone |}
            | None => hd
            end
        | None => hd
        end
    end.

Fixpoint header_loop (fuel : nat) (f_in : FILE) (hd : header)
  : outcome (header * FILE) :=
  match fuel with
  | O => OutOfFuel
  | S fuel' =>
      match fgets FILENAME_MAX f_in with
      | (None, f') => Ok (hd, f')
      | (Some l, f') =>
          let buf := c_str l in
          let hd' := header_line hd buf in
          if String.eqb buf end_header then Ok (hd', f')
          else header_loop fuel' f' hd'
      end
  end.

(** [header_get_record_length_and_utm_zone]: fast forward [f_in] until
    "end_header" is found.  The number of properties the C function returns
    is the length of [props]; [utm] comes in as the caller's array and goes
    out as the function leaves it; [*isbin] is cleared on entry. *)
Definition header_get_record_length_and_utm_zone (f_in : FILE)
    (utm0 : option string) : outcome (header * FILE) :=
  header_loop (S (String.length (rest f_in))) f_in
    {| props := []; isbin := false; utm := utm0 |}.

(** The lines the header loop goes through, the last one being
    ["end_header\n"] when the header has it. *)
Fixpoint header_lines (fuel : nat) (f_in : FILE) : list string :=
  match fuel with
  | O => []
  | S fuel' =>
      match fgets FILENAME_MAX f_in with
      | (None, _) => []
      | (Some l, f') =>
          let buf := c_str l in
          if String.eqb buf end_header then [buf]
          else buf :: header_lines fuel' f'
      end
  end.

Definition is_format_line (buf : string) : bool :=
  String.eqb buf format_binary || String.eqb buf format_ascii.

(** The encoding after one more line. *)
Definition encoding_step (b : bool) (buf : string) : bool :=
  if String.eqb buf format_binary then true
  else if String.eqb buf format_ascii then false
  else b.

(** The zone a line stores in [utm], if it stores one. *)
Definition line_zone (buf : string) : option string :=
  if is_format_line buf then None
  else
    match parse_property_line buf with
    | Some _ => None
    | None =>
        match strip_prefix "comment projection:" buf with
        | Some _ => scan_projection buf
        | None => None
        end
    end.

(** The contents of [utm] after one more line. *)
Definition zone_step (u : option string) (buf : string) : option string :=
  match line_zone buf with
  | Some zone => Some zone
  | None => u
  end.

(** *** The arrays the parser writes to

    [add_ply_points_to_images] and [main] both call the parser with a
    [char utm[3]] and a [struct ply_property t[100]] of their own. *)

(** A word of [k] characters and its NUL fit an array of [size] bytes. *)
Definition word_fits (size : nat) (word : string) : bool :=
  (String.length word <? size)%nat.

(** The words [parse_property_line] stores in [typename[0x100]] and in
    [t->name[0x100]] fit. *)
Definition names_fit (buf : string) : bool :=
  match strip_prefix "property" buf with
  | Some s =>
      match scan_s s with
      | Some (typename, s') =>
          word_fits 256 typename
          && match scan_s s' with
             | Some (pname, _) => word_fits 256 pname
             | None => true
             end
      | None => true
      end
  | None => true
  end.

(** The zone the line stores, if any, fits [utm[3]]. *)
Definition zone_fits (buf : string) : bool :=
  match line_zone buf with
  | Some zone => word_fits 3 zone
  | None => true
  end.

(** Every line that is not a format line is given to [parse_property_line]
    with the slot [t + n]: the slot is one of the array, and the words
    stored fit. *)
Fixpoint arrays_hold (n : nat) (lines : list string) : bool :=
  match lines with
  | [] => true
  | buf :: lines' =>
      if is_format_line buf then arrays_hold n lines'
      else
        (n <? 100)%nat && names_fit buf && zone_fits buf
        && arrays_hold (match parse_property_line buf with
                        | Some _ => S n
                        | None => n
                        end) lines'
  end.

Definition header_fits (f_in : FILE) : bool :=
  arrays_hold 0 (header_lines (S (String.length (rest f_in))) f_in).

(** The call of the parser from a function that owns such arrays: what the
    parser gives when every write stays inside them, undefined behaviour
    otherwise. *)
Definition parse_header (f_in : FILE) (utm0 : option string)
  : outcome (header * FILE) :=
  if header_fits f_in then header_get_record_length_and_utm_zone f_in utm0
  else Undefined.

(** ** Records, ingestion and the driver *)

(** What the run prints on [stderr], but for the usage message and the
    line that echoes the box.
    [MaybeDifferentUtmZones] stands for a comparison of zones that read an
    array never written: the line "different UTM zones" may be printed or
    not. *)
Inductive message : Type :=
  | CantReadExtrema (path : string)
  | CantOpenPly (path : string)
  | DifferentUtmZones
  | MaybeDifferentUtmZones.

(** The two calls that end a complete run: [iio_save_image_float] with the
    raster and its size, then [set_geotif_header] with the zone, the
    offsets and the scale; and the messages printed on the way. *)
Record product : Type := {
  out_path : string;
  raster : list float;
  out_w : Z;
  out_h : Z;
  geo_utm : option string;
  geo_xoff : float;
  geo_yoff : float;
  geo_scale : float;
  printed : list message
}.

(** The command line once [pick_option], [atoi] and [atof] have read it:
    [argc] is the count that is left when the option is taken out. *)
Record arguments : Type := {
  argc : Z;
  col_idx : Z;
  resolution : float;
  out_dsm : string;
  list_of_tiles : string;
  xmin : float;
  xmax : float;
  ymin : float;
  ymax : float
}.

(** The extent read from the last [plyextrema.txt]; [None] is a variable
    that has not been assigned yet. *)
Record extent : Type := {
  local_xmin : option float;
  local_xmax : option float;
  local_ymin : option float;
  local_ymax : option float
}.

(** The number of characters of ["error: bad col_idx %d\n"], which the
    program passes to [exit]. *)
Fixpoint decimal_digits (fuel : nat) (z : Z) : Z :=
  match fuel with
  | O => 1
  | S fuel' => if z <? 10 then 1 else 1 + decimal_digits fuel' (z / 10)
  end.

Definition bad_col_idx_status (col_idx : Z) : Z :=
  20 + (if col_idx <? 0 then 1 else 0) + decimal_digits 10 (Z.abs col_idx).

(** [strtok(s, "\n")] seen from the array it is applied to: the first
    newline that follows a character other than a newline becomes the end
    of the string. *)
Fixpoint strtok_newline_aux (started : bool) (s : string) : string :=
  match s with
  | EmptyString => EmptyString
  | String c s' =>
      if Ascii.eqb c nl
      then if started then EmptyString
           else String c (strtok_newline_aux false s')
      else String c (strtok_newline_aux true s')
  end.

Definition strtok_newline (s : string) : string := strtok_newline_aux false s.

Section Program.
Context {libc : Libc}.

(** The files the run can open for reading. *)
Variable fs : gmap string string.

(** [push] of [lists.c], which is not part of the sources at hand. *)
Variable push : list string -> string -> list string.

(** *** [get_record] *)

(** The body of the [for] loop of the binary branch, for property [i]. *)
Definition get_record_bin_step (t : list ply_property)
    (st : Z * list (option double) * FILE) (i : nat)
  : Z * list (option double) * FILE :=
  let '(rec, data, f_in) := st in
  let item (size : nat) (value : string -> double) :=
    match fread size f_in with
    | (Some bs, f') => (rec + 1, <[i := Some (value bs)]> data, f')
    | (None, f') => (rec + 0, <[i := None]> data, f')
    end in
  match type <$> t !! i with
  | Some UCHAR => item 1%nat (fun bs => IEEE.of_Z b64 (le_bits bs))
  | Some FLOAT =>
      item 4%nat (fun bs => IEEE.cast b64 (IEEE.of_bits b32 (le_bits bs)))
  | Some DOUBLE => item 8%nat (fun bs => IEEE.of_bits b64 (le_bits bs))
  | _ => st
  end.

(** The [while] loop of the text branch, [k] properties from [i] on. *)
Fixpoint get_record_ascii_loop (k : nat) (i : nat)
    (st : Z * list (option double) * FILE)
  : Z * list (option double) * FILE :=
  match k with
  | O => st
  | S k' =>
      let '(rec, data, f_in) := st in
      if feof f_in then st
      else
        let '(r, v, f') := fscanf_float scan_lf f_in in
        let data' := match v with
                     | Some x => <[i := Some x]> data
                     | None => data
                     end in
        get_record_ascii_loop k' (S i) (rec + r, data', f')
  end.

(** [get_record]: the value returned, [data] and the stream afterwards. *)
Definition get_record (f_in : FILE) (isbin : bool) (t : list ply_property)
    (n : nat) (data : list (option double))
  : Z * list (option double) * FILE :=
  if isbin then fold_left (get_record_bin_step t) (seq 0 n) (0, data, f_in)
  else get_record_ascii_loop n 0%nat (0, data, f_in).

(** *** [add_ply_points_to_images] *)

(** The body of the [while] loop, on a record just read. *)
Definition add_point (x : images) (xmin xmax ymin ymax : float)
    (col_idx : Z) (data : list (option double)) : outcome images :=
  d0 ← defined (mjoin (data !! 0%nat));
  o1 ← defined (rescale_float_to_int d0 (IEEE.cast b64 xmin)
                  (IEEE.cast b64 xmax) (w x));
  d1 ← defined (mjoin (data !! 1%nat));
  o2 ← defined (rescale_float_to_int (IEEE.neg d1)
                  (IEEE.cast b64 (IEEE.neg ymax))
                  (IEEE.cast b64 (IEEE.neg ymin)) (h x));
  let '(i, flag1) := o1 in
  let '(j, flag2) := o2 in
  if flag1 && flag2 then
    if col_idx =? 2 then
      d2 ← defined (mjoin (data !! 2%nat));
      x' ← defined (add_height_to_images x i j (IEEE.cast b32 d2));
      if IEEE.isfinite d2 then Ok x' else Aborted
    else
      dc ← defined (mjoin (data !! Z.to_nat col_idx));
      rgb ← defined (IEEE.to_uint dc);
      defined (add_height_to_images x i j (IEEE.of_Z b32 rgb))
  else Ok x.

Fixpoint add_points_loop (fuel : nat) (x : images)
    (xmin xmax ymin ymax : float) (col_idx : Z) (isbin : bool)
    (t : list ply_property) (n : nat) (f : FILE)
    (data : list (option double)) : outcome images :=
  match fuel with
  | O => OutOfFuel
  | S fuel' =>
      let '(rec, data', f') := get_record f isbin t n data in
      if Z.of_nat n =? u64 rec then
        x' ← add_point x xmin xmax ymin ymax col_idx data';
        add_points_loop fuel' x' xmin xmax ymin ymax col_idx isbin t n f'
          data'
      else Ok x
  end.

(** [strncmp(utm_zone, utm, 3)] is not zero. *)
Definition zones_differ (utm_zone utm : string) : bool :=
  negb (String.eqb (string_take 3 utm_zone) (string_take 3 utm)).

(** [add_ply_points_to_images]: open a ply file, and accumulate its points
    to the image.  The state is the images and the messages printed.  The
    header is parsed into the locals [char utm[3]] and
    [struct ply_property t[100]], next to which [isbin] is declared: a
    header that writes past them leaves nothing determined
    ([parse_header]).  The zone passed in is the array [utm] of [main],
    [None] while nothing was stored in it. *)
Definition add_ply_points_to_images (st : images * list message)
    (xmin xmax ymin ymax : float) (utm_zone : option string)
    (fname : string) (col_idx : Z) : outcome (images * list message) :=
  let '(x, msgs) := st in
  match fs !! fname with
  | None => Ok (x, msgs ++ [CantOpenPly fname])
  | Some contents =>
      let f := fopen_contents contents in
      '(hd, f) ← parse_header f None;
      let n := length (props hd) in
      let msgs :=
        match utm_zone, utm hd with
        | Some zone, Some file_zone =>
            if zones_differ zone file_zone
            then msgs ++ [DifferentUtmZones] else msgs
        | _, _ => msgs ++ [MaybeDifferentUtmZones]
        end in
      if (col_idx <? 2) || (col_idx >? 5)
      then Exit (bad_col_idx_status col_idx)
      else
        x' ← add_points_loop (S (stream_left f)) x
               xmin xmax ymin ymax col_idx (isbin hd) (props hd) n f
               (replicate n None);
        Ok (x', msgs)
  end.

(** *** [main] *)

(** [fscanf(ply_extrema_file, "%f %f %f %f", ...)]: each number read is
    stored, and the first that cannot be read ends the call. *)
Definition read_extrema (f : FILE) (e : extent) : extent :=
  match fscanf_float scan_f f with
  | (_, Some a, f) =>
      let e := {| local_xmin := Some a; local_xmax := local_xmax e;
                  local_ymin := local_ymin e; local_ymax := local_ymax e |} in
      match fscanf_float scan_f f with
      | (_, Some b, f) =>
          let e := {| local_xmin := local_xmin e; local_xmax := Some b;
                      local_ymin := local_ymin e;
                      local_ymax := local_ymax e |} in
          match fscanf_float scan_f f with
          | (_, Some c, f) =>
              let e := {| local_xmin := local_xmin e;
                          local_xmax := local_xmax e;
                          local_ymin := Some c;
                          local_ymax := local_ymax e |} in
              match fscanf_float scan_f f with
              | (_, Some d, _) =>
                  {| local_xmin := local_xmin e; local_xmax := local_xmax e;
                     local_ymin := local_ymin e; local_ymax := Some d |}
              | _ => e
              end
          | _ => e
          end
      | _ => e
      end
  | _ => e
  end.

(** The test that tells whether two rectangles overlap. *)
Definition overlap (e : extent) (xmin xmax ymin ymax : float)
  : option bool :=
  lxmin ← local_xmin e;
  lxmax ← local_xmax e;
  lymin ← local_ymin e;
  lymax ← local_ymax e;
  Some (IEEE.leb lxmin xmax && IEEE.leb xmin lxmax
        && IEEE.leb lymin ymax && IEEE.leb ymin lymax).

(** What the first loop of [main] carries from tile to tile. *)
Record selection : Type := {
  sel_extent : extent;
  sel_utm : option string;
  sel_list : list string;
  sel_printed : list message
}.

(** The body of the first loop of [main], on one line of the list.  The
    paths are built with [sprintf] in arrays of 1000 bytes: that of the
    extent file is the longer of the two.  The header of a selected file is
    parsed into the [char utm[3]] of [main] and a [t[100]] of the loop
    ([parse_header]). *)
Definition select_tile (a : arguments) (s : selection) (l : string)
  : outcome selection :=
  let tile_dir := strtok_newline (c_str l) in
  let ply_extrema := tile_dir +:+ "/plyextrema.txt" in
  if negb (word_fits 1000 ply_extrema) then Undefined else
  match fs !! ply_extrema with
  | None =>
      Ok {| sel_extent := sel_extent s; sel_utm := sel_utm s;
            sel_list := sel_list s;
            sel_printed := sel_printed s ++ [CantReadExtrema ply_extrema] |}
  | Some contents =>
      let e := read_extrema (fopen_contents contents) (sel_extent s) in
      inside ← defined (overlap e (xmin a) (xmax a) (ymin a) (ymax a));
      if inside : bool then
        let ply := tile_dir +:+ "/cloud.ply" in
        match fs !! ply with
        | None =>
            Ok {| sel_extent := e; sel_utm := sel_utm s;
                  sel_list := sel_list s;
                  sel_printed := sel_printed s ++ [CantOpenPly ply] |}
        | Some ply_contents =>
            '(hd, _) ← parse_header (fopen_contents ply_contents)
                         (sel_utm s);
            Ok {| sel_extent := e; sel_utm := utm hd;
                  sel_list := push (sel_list s) ply;
                  sel_printed := sel_printed s |}
        end
      else
        Ok {| sel_extent := e; sel_utm := sel_utm s;
              sel_list := sel_list s; sel_printed := sel_printed s |}
  end.

Fixpoint select_loop (fuel : nat) (a : arguments) (f : FILE)
    (s : selection) : outcome selection :=
  match fuel with
  | O => OutOfFuel
  | S fuel' =>
      match fgets 1000 f with
      | (None, _) => Ok s
      | (Some l, f') =>
          s' ← select_tile a s l;
          select_loop fuel' a f' s'
      end
  end.

(** The first loop of [main] on the contents of the list of tiles, from
    variables not assigned yet and an empty list. *)
Definition select_tiles (a : arguments) (contents : string)
  : outcome selection :=
  select_loop (S (String.length contents)) a (fopen_contents contents)
    {| sel_extent := {| local_xmin := None; local_xmax := None;
                        local_ymin := None; local_ymax := None |};
       sel_utm := None; sel_list := []; sel_printed := [] |}.

(** The zone the header of a file declares, if the file can be opened and
    has a projection comment. *)
Definition declared_zone (fname : string) : option string :=
  match fs !! fname with
  | Some contents =>
      match header_get_record_length_and_utm_zone
              (fopen_contents contents) None with
      | Ok (hd, _) => utm hd
      | _ => None
      end
  | None => None
  end.

(** The zone the last file of [l] that declares one declares. *)
Definition last_zone (l : list string) : option string :=
  last (omap declared_zone l).

(** The messages the ingestion of one file adds when the zone it is
    compared with is [utm]: none when the first three characters of the
    two zones are the same. *)
Definition file_messages (utm : option string) (fname : string)
  : list message :=
  match fs !! fname with
  | None => [CantOpenPly fname]
  | Some _ =>
      match utm, declared_zone fname with
      | Some zone, Some file_zone =>
          if decide (string_take 3 zone = string_take 3 file_zone)
          then [] else [DifferentUtmZones]
      | _, _ => [MaybeDifferentUtmZones]
      end
  end.

(** The messages of the ingestion of the files of [l], in their order. *)
Definition zone_messages (utm : option string) (l : list string)
  : list message :=
  concat (file_messages utm <$> l).

(** The second loop of [main]: every file of the list, from its head. *)
Fixpoint ingest (a : arguments) (utm : option string) (l : list string)
    (st : images * list message) : outcome (images * list message) :=
  match l with
  | [] => Ok st
  | current :: next =>
      st' ← add_ply_points_to_images st (xmin a) (xmax a) (ymin a) (ymax a)
              utm current (col_idx a);
      ingest a utm next st'
  end.

(** The size of one side of the raster: [1 + (max - min) / resolution]
    in [float], converted to [int]. *)
Definition side (min max resolution : float) : option Z :=
  IEEE.to_int (IEEE.add b32 (IEEE.of_Z b32 1)
                 (IEEE.div b32 (IEEE.sub b32 max min) resolution)).

(** The last loop of [main]: set unknown values to NAN. *)
Definition set_unknown (x : images) : list float :=
  zip_with (fun c v => if IEEE.eqb c (S754_zero false) then IEEE.nan else v)
    (cnt x) (avg x).

(** [main].  The arrays of [w * h] cells come from [xmalloc], which is
    not part of the sources at hand: the model follows the run when both
    sides are positive, and says nothing ([Undefined]) otherwise. *)
Definition main (a : arguments) : outcome product :=
  if negb (argc a =? 8) then Exit 1
  else
    match fs !! list_of_tiles a with
    | None => Exit 1
    | Some contents =>
        s ← select_tiles a contents;
        w ← defined (side (xmin a) (xmax a) (resolution a));
        h ← defined (side (ymin a) (ymax a) (resolution a));
        if (0 <? w) && (0 <? h) then
          let cells := Z.to_nat (u64 (u64 w * u64 h)) in
          let x := {| cnt := replicate cells (S754_zero false);
                      avg := replicate cells (S754_zero false);
                      w := w; h := h |} in
          '(x, msgs) ← ingest a (sel_utm s) (sel_list s)
                         (x, sel_printed s);
          Ok {| out_path := out_dsm a; raster := set_unknown x;
                out_w := w; out_h := h;
                geo_utm := sel_utm s;
                geo_xoff := xmin a; geo_yoff := ymax a;
                geo_scale := resolution a;
                printed := msgs |}
        else Undefined
    end.

End Program.

(** ** The two encodings of a point cloud *)

(** The number of bytes [get_record] reads for a property of a binary
    file: 1, [sizeof(float)], [sizeof(double)], and none for a type the
    [switch] has no case for. *)
Definition width (ty : ply_type) : nat :=
  match ty with
  | UCHAR => 1
  | FLOAT => 4
  | DOUBLE => 8
  | UNKNOWN => 0
  end.

(** The bytes of a whole binary record. *)
Definition record_size (t : list ply_property) : nat :=
  foldr (fun p acc => (width (type p) + acc)%nat) 0%nat t.

(** The [n] low bytes of [bits], least significant first. *)
Fixpoint le_bytes (n : nat) (bits : Z) : string :=
  match n with
  | O => EmptyString
  | S n' =>
      String (ascii_of_N (Z.to_N (bits mod 256))) (le_bytes n' (bits / 256))
  end.

(** The number a binary item denotes, the item being given as the unsigned
    integer its bytes hold: an [unsigned char], the [float] or the [double]
    of that bit pattern. *)
Definition item_value (ty : ply_type) (bits : Z) : double :=
  match ty with
  | UCHAR => IEEE.of_Z b64 bits
  | FLOAT => IEEE.cast b64 (IEEE.of_bits b32 bits)
  | DOUBLE => IEEE.of_bits b64 bits
  | UNKNOWN => IEEE.nan
  end.

(** An item holds in the bytes of its property. *)
Definition item_fits (p : ply_property) (bits : Z) : Prop :=
  0 <= bits < 256 ^ Z.of_nat (width (type p)).

(** A point is one item per property. *)
Definition point_fits (t : list ply_property) (items : list Z) : Prop :=
  Forall2 item_fits t items.

(** The binary encoding of a point, and of the points of a cloud: the
    bytes of the items, one after the other. *)
Definition binary_record (t : list ply_property) (items : list Z) : string :=
  foldr (fun pb acc => le_bytes (width (type pb.1)) pb.2 +:+ acc)
    EmptyString (zip t items).

Definition binary_records (t : list ply_property) (points : list (list Z))
  : string :=
  foldr (fun items acc => binary_record t items +:+ acc) EmptyString points.

(** The numbers of a point, and those of a cloud in the order of the
    file. *)
Definition point_values (t : list ply_property) (items : list Z)
  : list double :=
  zip_with (fun p bits => item_value (type p) bits) t items.

Definition cloud_values (t : list ply_property) (points : list (list Z))
  : list double :=
  concat (point_values t <$> points).

(** A text spells the numbers [vs]: white space, a numeral that the
    directive [conv] converts to the first number, and so on to the last
    number, which only white space may follow. *)
Fixpoint spells (conv : string -> scan) (s : string) (vs : list double)
  : Prop :=
  match vs with
  | [] => skip_ws s = EmptyString
  | v :: vs' =>
      match skip_ws s with
      | EmptyString => False
      | s1 =>
          match conv s1 with
          | Converted v' r =>
              v' = v /\ (String.length r < String.length s1)%nat
              /\ spells conv r vs'
          | Mismatch _ => False
          end
      end
  end.

(** The body of the loop of [add_ply_points_to_images] on a run of
    records. *)
Fixpoint add_records (x : images) (xmin xmax ymin ymax : float)
    (col_idx : Z) (records : list (list (option double))) : outcome images :=
  match records with
  | [] => Ok x
  | data :: records' =>
      x' ← add_point x xmin xmax ymin ymax col_idx data;
      add_records x' xmin xmax ymin ymax col_idx records'
  end.

(** Modelled from the spec: [push] of [lists.c], a file the sources at
    hand do not include.  "Order of the output sequence matches the order
    tiles appear in the input list (stable, not sorted)": the path goes to
    the end of the list, so that [main] ingests the files in the order of
    the list of tiles. *)
Definition push_last (l : list string) (str : string) : list string :=
  l ++ [str].

(** The other way a [push] can be written: the path goes in front, and
    [main] ingests the files in the reverse order. *)
Definition push_front (l : list string) (str : string) : list string :=
  str :: l.

(** Two states of the first loop of [main] that differ in the list of
    files at most. *)
Definition same_but_list (s1 s2 : selection) : Prop :=
  sel_extent s1 = sel_extent s2 /\ sel_utm s1 = sel_utm s2 /\
  sel_printed s1 = sel_printed s2.

(** ** A C library for the examples: decimal numerals

    An optional sign, digits, and optionally a point and more digits, with
    at least one digit in all; the value is rounded to the nearest value of
    the format, ties to even.  Exponents, hexadecimal
    numerals, infinities and NaNs are not read.  When no digit is found the
    directive fails, the sign and the point it went through being used. *)

Module Decimal.

Definition digit (c : ascii) : option Z :=
  let n := N_of_ascii c in
  if ((48 <=? n) && (n <=? 57))%N then Some (Z.of_N n - 48) else None.

(** The digits at the head of [s], appended to the numeral [acc]; their
    number is added to [k]. *)
Fixpoint digits (s : string) (acc : Z) (k : nat) : Z * nat * string :=
  match s with
  | String c s' =>
      match digit c with
      | Some d => digits s' (10 * acc + d) (S k)
      | None => (acc, k, s)
      end
  | EmptyString => (acc, k, s)
  end.

Definition sign (s : string) : bool * string :=
  match s with
  | String "-" s' => (true, s')
  | String "+" s' => (false, s')
  | _ => (false, s)
  end.

(** The value [m / 10 ^ k], rounded. *)
Definition round (fmt : IEEE.format) (neg : bool) (m : Z) (k : nat)
  : spec_float :=
  if m =? 0 then S754_zero neg
  else
    let '(q, e, l) :=
      SFdiv_core_binary (IEEE.prec fmt) (IEEE.emax fmt) m 0 (10 ^ Z.of_nat k) 0 in
    binary_round_aux (IEEE.prec fmt) (IEEE.emax fmt) neg q e l.

(** The directive on [s]: the sign, the digits and the point are taken
    from the stream whether digits are found or not. *)
Definition numeral (fmt : IEEE.format) (s : string) : scan :=
  let '(neg, s1) := sign s in
  let '(ip, n1, s2) := digits s1 0 0%nat in
  let '(m, n2, s3) :=
    match s2 with
    | String "." s2' => digits s2' ip 0%nat
    | _ => (ip, 0%nat, s2)
    end in
  match (n1 + n2)%nat with
  | O => Mismatch s3
  | S _ => Converted (round fmt neg m n2) s3
  end.

#[global] Instance libc : Libc := {|
  scan_lf := numeral IEEE.binary64;
  scan_f := numeral IEEE.binary32
|}.

End Decimal.


(** ** Data of the worked examples *)

Module Examples.

(** The [double] and the [float] a decimal numeral denotes. *)
Definition dbl (s : string) : double :=
  match Decimal.numeral b64 s with
  | Converted v _ => v
  | Mismatch _ => IEEE.nan
  end.

Definition flt (s : string) : float :=
  match Decimal.numeral b32 s with
  | Converted v _ => v
  | Mismatch _ => IEEE.nan
  end.

(** Images of [w * h] cells as [main] initialises them. *)
Definition blank (w h : Z) : images :=
  {| cnt := replicate (Z.to_nat (w * h)) (S754_zero false);
     avg := replicate (Z.to_nat (w * h)) (S754_zero false);
     w := w; h := h |}.

(** Three samples in two orders: 16777216, 1, 1 and 1, 1, 16777216. *)
Definition big_first : list float := [flt "16777216"; flt "1"; flt "1"].
Definition big_last : list float := [flt "1"; flt "1"; flt "16777216"].

(** Rational samples in two orders. *)
Definition samples : list Q := [1%Q; 2%Q; 6%Q].
Definition samples_rotated : list Q := [6%Q; 1%Q; 2%Q].

(** A record half a unit to the left of a box that starts at 0: x = -0.5,
    y = 5, height 3. *)
Definition stray : list (option double) :=
  [Some (dbl "-0.5"); Some (dbl "5"); Some (dbl "3")].

(** *** Files *)

(** A text cloud of [double] columns x, y, z in zone [zone], with the
    records [pts], one per line. *)
Definition cloud_header (fmt zone : string) : string :=
  line "ply" +:+ line ("format " +:+ fmt) +:+
  line ("comment projection: UTM " +:+ zone) +:+
  line "property double x" +:+ line "property double y" +:+
  line "property double z" +:+ line "end_header".

Definition text_cloud (zone : string) (pts : list string) : string :=
  cloud_header "ascii 1.0" zone +:+ foldr (fun p acc => line p +:+ acc) "" pts.

(** The same header without the projection comment. *)
Definition text_cloud_no_zone (pts : list string) : string :=
  line "ply" +:+ line "format ascii 1.0" +:+
  line "property double x" +:+ line "property double y" +:+
  line "property double z" +:+ line "end_header" +:+
  foldr (fun p acc => line p +:+ acc) "" pts.

(** The box (0, 10, 0, 10) at resolution 1, column 2. *)
Definition box_0_10 : arguments :=
  {| argc := 8; col_idx := 2; resolution := flt "1";
     out_dsm := "dsm.tif"; list_of_tiles := "tiles.txt";
     xmin := flt "0"; xmax := flt "10"; ymin := flt "0"; ymax := flt "10" |}.

(** One tile with the two points (2.5, 2.5, 5.0) and (2.6, 2.6, 7.0). *)
Definition scene_fs : gmap string string :=
  <["tiles.txt" := line "tile"]>
  (<["tile/plyextrema.txt" := line "2.5 2.6 2.5 2.6"]>
  (<["tile/cloud.ply" := text_cloud "31" ["2.5 2.5 5.0"; "2.6 2.6 7.0"]]> ∅)).

(** The run on the three tiles when [push] adds in front. *)
Definition zones_product : product :=
  {| out_path := "dsm.tif";
     raster := <[Z.to_nat (11 * 8 + 2) := flt "5"]>
               (<[Z.to_nat (11 * 2 + 8) := flt "9"]>
               (<[Z.to_nat (11 * 4 + 6) := flt "1"]>
               (replicate 121 IEEE.nan)));
     out_w := 11; out_h := 11; geo_utm := Some "32";
     geo_xoff := flt "0"; geo_yoff := flt "10"; geo_scale := flt "1";
     printed := [MaybeDifferentUtmZones; DifferentUtmZones] |}.

(** The raster of the scene: 6 at column 2, row 8 of 11 columns and 11
    rows, no data elsewhere. *)
Definition scene_raster : list float :=
  <[Z.to_nat (11 * 8 + 2) := flt "6"]> (replicate 121 IEEE.nan).

(** A file system whose list of tiles is empty. *)
Definition no_tiles_fs : gmap string string := <["tiles.txt" := ""]> ∅.

(** A box whose minima are above its maxima, at resolution -1. *)
Definition reversed_box : arguments :=
  {| argc := 8; col_idx := 2; resolution := flt "-1";
     out_dsm := "dsm.tif"; list_of_tiles := "tiles.txt";
     xmin := flt "10"; xmax := flt "0"; ymin := flt "10"; ymax := flt "0" |}.

(** Two tiles: the first with a well-formed extent and one point, the
    second with an extent file that holds no number and one point. *)
Definition malformed_fs : gmap string string :=
  <["tiles.txt" := line "a" +:+ line "b"]>
  (<["a/plyextrema.txt" := line "0 10 0 10"]>
  (<["a/cloud.ply" := text_cloud "31" ["2.5 2.5 5.0"]]>
  (<["b/plyextrema.txt" := line "not an extent"]>
  (<["b/cloud.ply" := text_cloud "31" ["7.5 7.5 9.0"]]> ∅)))).

(** One tile far from the box (0, 10, 0, 10). *)
Definition far_fs : gmap string string :=
  <["tiles.txt" := line "far"]>
  (<["far/plyextrema.txt" := line "100 110 100 110"]>
  (<["far/cloud.ply" := text_cloud "31" ["105 105 1.0"]]> ∅)).

(** The box (0, 10, 0, 10) with column 7. *)
Definition column_7 : arguments :=
  {| argc := 8; col_idx := 7; resolution := flt "1";
     out_dsm := "dsm.tif"; list_of_tiles := "tiles.txt";
     xmin := flt "0"; xmax := flt "10"; ymin := flt "0"; ymax := flt "10" |}.

(** Three tiles inside the box: zone 31, zone 32, and no projection
    comment. *)
Definition zones_fs : gmap string string :=
  <["tiles.txt" := line "a" +:+ line "b" +:+ line "c"]>
  (<["a/plyextrema.txt" := line "0 10 0 10"]>
  (<["a/cloud.ply" := text_cloud "31" ["2.5 2.5 5.0"]]>
  (<["b/plyextrema.txt" := line "0 10 0 10"]>
  (<["b/cloud.ply" := text_cloud "32" ["7.5 7.5 9.0"]]>
  (<["c/plyextrema.txt" := line "0 10 0 10"]>
  (<["c/cloud.ply" := text_cloud_no_zone ["5.5 5.5 1.0"]]> ∅)))))).

Definition xyz : list ply_property :=
  [{| type := DOUBLE; name := "x"; len := Some 8 |};
   {| type := DOUBLE; name := "y"; len := Some 8 |};
   {| type := DOUBLE; name := "z"; len := Some 8 |}].

(** The point (2.5, 2.5, 5.0) as the bit patterns of three [double]s, in a
    binary cloud and in a text cloud. *)
Definition pair_points : list (list Z) :=
  [[0x4004000000000000; 0x4004000000000000; 0x4014000000000000]].

Definition binary_cloud : string :=
  cloud_header "binary_little_endian 1.0" "31" +:+
  binary_records xyz pair_points.

Definition pair_fs : gmap string string :=
  <["bin/cloud.ply" := binary_cloud]>
  (<["txt/cloud.ply" := text_cloud "31" ["2.5 2.5 5.0"]]> ∅).

(** The same binary cloud in zone 31N, whose name has three characters. *)
Definition binary_cloud_31N : string :=
  cloud_header "binary_little_endian 1.0" "31N" +:+
  binary_records xyz pair_points.

Definition overflow_fs : gmap string string :=
  <["bin/cloud.ply" := binary_cloud_31N]>
  (<["txt/cloud.ply" := text_cloud "31N" ["2.5 2.5 5.0"]]> ∅).

(** What the parser gathers from the header of the binary cloud. *)
Definition binary_parsed : header :=
  {| props := xyz; isbin := true; utm := Some "31N" |}.

(** A header with no format line. *)
Definition bare_header : string :=
  line "ply" +:+ line "property float x" +:+ line "end_header".

End Examples.

(** ** Further definitions: items, lines, the GeoTIFF keys *)

(** The property a line of the header adds to [t], if it adds one. *)
Definition line_property (buf : string) : option ply_property :=
  if is_format_line buf then None else parse_property_line buf.

(** Whether a string holds a newline. *)
Fixpoint has_newline (s : string) : bool :=
  match s with
  | EmptyString => false
  | String c s' => Ascii.eqb c nl || has_newline s'
  end.


(** A [push] that puts nothing in the list but the string it is given. *)
Definition push_adds_only (push : list string -> string -> list string)
  : Prop :=
  forall l str x, x ∈ push l str -> x ∈ l \/ x = str.

(** The digit a character is. *)
Definition digit_value (c : ascii) : option Z :=
  let n := N_of_ascii c in
  if ((48 <=? n) && (n <=? 57))%N then Some (Z.of_N n - 48) else None.

(** [atoi]: white space, an optional sign, then the digits that follow.
    The value is not reduced to [int]: the program applies [atoi] to two
    characters at most. *)
Fixpoint atoi_digits (s : string) (acc : Z) : Z :=
  match s with
  | String c s' =>
      match digit_value c with
      | Some d => atoi_digits s' (10 * acc + d)
      | None => acc
      end
  | EmptyString => acc
  end.

Definition atoi (s : string) : Z :=
  match skip_ws s with
  | String "-" s' => - atoi_digits s' 0
  | String "+" s' => atoi_digits s' 0
  | s' => atoi_digits s' 0
  end.

(** The character [s[i]] of a C string: one of its characters, or the NUL
    that ends it; what lies beyond is not determined. *)
Fixpoint char_at (s : string) (i : nat) : option ascii :=
  match s, i with
  | EmptyString, O => Some NUL
  | EmptyString, S _ => None
  | String c _, O => Some c
  | String _ s', S i' => char_at s' i'
  end.

(** [get_utm_zone_index_for_geotiff]: convert string like '28N' into a
    number like 32628.  The result is the value returned, the string
    [utm_zone] holds afterwards, and whether "bad utm zone value" was
    printed; [None] when [utm_zone[2]] lies beyond the end of the string. *)
Definition get_utm_zone_index_for_geotiff (utm_zone : string)
  : option (Z * string * bool) :=
  match char_at utm_zone 2 with
  | Some c =>
      let out := 32000 in
      let '(out, bad) :=
        if Ascii.eqb c "N" then (out + 600, false)
        else if Ascii.eqb c "S" then (out + 700, false)
        else (out, true) in
      let utm_zone := string_take 2 utm_zone in
      Some (out + atoi utm_zone, utm_zone, bad)
  | None => None
  end.

(** What [set_geotif_header] hands to libtiff and libgeotiff: the pixel
    scale, the tie point and the key [ProjectedCSTypeGeoKey]. *)
Record geotiff : Type := {
  pixel_scale : list double;
  tiepoints : list double;
  projected_cs_type : Z
}.

(** [set_geotif_header], the calls that open and close the file being
    taken to succeed (what [fail] does otherwise is not in the sources at
    hand). *)
Definition set_geotif_header (utm_zone : string) (xoff yoff scale : float)
  : option (geotiff * string * bool) :=
  let zero := S754_zero false in
  let pixsize := [IEEE.cast b64 scale; IEEE.cast b64 scale; zero] in
  let tiepoint := [zero; zero; zero; IEEE.cast b64 xoff; IEEE.cast b64 yoff;
                   zero] in
  match get_utm_zone_index_for_geotiff utm_zone with
  | Some (utm_ind, utm_zone, bad) =>
      Some ({| pixel_scale := pixsize; tiepoints := tiepoint;
               projected_cs_type := utm_ind |}, utm_zone, bad)
  | None => None
  end.

(** The last call of [main], on what a complete run produced. *)
Definition geotiff_of (p : product) : option (geotiff * string * bool) :=
  match geo_utm p with
  | Some utm => set_geotif_header utm (geo_xoff p) (geo_yoff p) (geo_scale p)
  | None => None
  end.


(** ** Data of the further examples *)

Module Cases.

(** The properties x, y of type [double] and a property of a type the
    program does not know. *)
Definition xy_int : list ply_property :=
  [{| type := DOUBLE; name := "x"; len := Some 8 |};
   {| type := DOUBLE; name := "y"; len := Some 8 |};
   {| type := UNKNOWN; name := "n"; len := None |}].

(** The three [double]s 2.5, 2.5, 5.0 of a binary record. *)
Definition record_bytes : string :=
  le_bytes 8 0x4004000000000000 +:+
  le_bytes 8 0x4004000000000000 +:+
  le_bytes 8 0x4014000000000000.

Definition blank3 : list (option double) := [None; None; None].

(** A text stream that holds nothing but white space. *)
Definition blank_tail : FILE := {| rest := line "  "; eof := false |}.

End Cases.

(** * Properties *)

(** ** The accumulation grid *)

Lemma u64_small z : 0 <= z < 2 ^ 64 -> u64 z = z.
Proof. intros Hz. unfold u64. apply Z.mod_small. exact Hz. Qed.

(** Inside the grid the index computed in [uint64_t] does not wrap, and
    falls inside the arrays. *)
Lemma flat_index x i j :
  images_wf x -> 0 <= i < w x -> 0 <= j < h x ->
  Z.to_nat (u64 (u64 (u64 (w x) * u64 j) + u64 i)) = cell_index x i j /\
  (cell_index x i j < Z.to_nat (w x * h x))%nat.
Proof.
  intros (Hw & Hh & _ & _) Hi Hj. unfold cell_index.
  assert (Hk : 0 <= w x * j + i < w x * h x) by nia.
  assert (Hwh : w x * h x < 2 ^ 62) by nia.
  assert (H62 : 2 ^ 62 < 2 ^ 64) by reflexivity.
  rewrite (u64_small (w x)) by lia.
  rewrite (u64_small j) by lia.
  rewrite (u64_small i) by lia.
  rewrite (u64_small (w x * j)) by nia.
  rewrite (u64_small (w x * j + i)) by lia.
  split; [reflexivity | lia].
Qed.

(** What one call does inside the grid: the cell is replaced by its
    update, the rest of the structure is kept. *)
Lemma add_height_to_images_inside x i j v :
  images_wf x -> 0 <= i < w x -> 0 <= j < h x ->
  exists a c,
    avg x !! cell_index x i j = Some a /\
    cnt x !! cell_index x i j = Some c /\
    add_height_to_images x i j v =
      Some {| cnt := <[cell_index x i j := snd (cell_update (a, c) v)]> (cnt x);
              avg := <[cell_index x i j := fst (cell_update (a, c) v)]> (avg x);
              w := w x; h := h x |}.
Proof.
  intros Hwf Hi Hj.
  destruct (flat_index x i j Hwf Hi Hj) as [Hk Hlt].
  destruct Hwf as (_ & _ & Hc & Ha).
  destruct (lookup_lt_is_Some_2 (avg x) (cell_index x i j)) as [a Ea]; [lia|].
  destruct (lookup_lt_is_Some_2 (cnt x) (cell_index x i j)) as [c Ec]; [lia|].
  exists a, c. split; [exact Ea|]. split; [exact Ec|].
  unfold add_height_to_images. rewrite Hk, Ea, Ec. reflexivity.
Qed.

Lemma add_height_to_images_wf x i j v x' :
  images_wf x -> add_height_to_images x i j v = Some x' -> images_wf x'.
Proof.
  unfold add_height_to_images, images_wf. intros Hwf H.
  destruct (avg x !! _) as [a|]; [|discriminate].
  destruct (cnt x !! _) as [c|]; [|discriminate].
  injection H as <-. simpl. rewrite !length_insert. exact Hwf.
Qed.

(** C10.  Inside the grid, [add_height_to_images] succeeds and changes
    nothing but the average and the count at flat index [w * j + i]: every
    other entry of both arrays, and the sides [w] and [h], are as before. *)
Theorem add_height_to_images_frame x i j v :
  images_wf x -> 0 <= i < w x -> 0 <= j < h x ->
  exists x',
    add_height_to_images x i j v = Some x' /\
    w x' = w x /\ h x' = h x /\
    forall k : nat, k <> Z.to_nat (w x * j + i) ->
      avg x' !! k = avg x !! k /\ cnt x' !! k = cnt x !! k.
Proof.
  intros Hwf Hi Hj.
  destruct (add_height_to_images_inside x i j v Hwf Hi Hj)
    as (a & c & _ & _ & ->).
  eexists. split; [reflexivity|]. simpl. split; [reflexivity|].
  split; [reflexivity|]. intros k Hk. fold (cell_index x i j) in Hk.
  split; apply list_lookup_insert_ne; congruence.
Qed.

Lemma add_height_to_images_frame_witness :
  exists x',
    add_height_to_images (Examples.blank 3 2) 1 1 (Examples.flt "5") = Some x' /\
    w x' = 3 /\ h x' = 2 /\
    forall k : nat, k <> Z.to_nat (3 * 1 + 1) ->
      avg x' !! k = avg (Examples.blank 3 2) !! k /\
      cnt x' !! k = cnt (Examples.blank 3 2) !! k.
Proof.
  apply (add_height_to_images_frame (Examples.blank 3 2) 1 1 (Examples.flt "5")).
  - unfold images_wf. simpl. repeat split; reflexivity || lia.
  - simpl. lia.
  - simpl. lia.
Defined.


(** ** The running average *)

(** On the images, a run of updates of one cell is the fold of
    [cell_update] in the arithmetic of [float]. *)
Lemma add_heights_cell vs : forall x i j a c,
  images_wf x -> 0 <= i < w x -> 0 <= j < h x ->
  avg x !! cell_index x i j = Some a ->
  cnt x !! cell_index x i j = Some c ->
  exists x',
    add_heights x i j vs = Some x' /\ images_wf x' /\
    w x' = w x /\ h x' = h x /\
    avg x' !! cell_index x i j = Some (fst (fold_left cell_update vs (a, c))) /\
    cnt x' !! cell_index x i j = Some (snd (fold_left cell_update vs (a, c))).
Proof.
  induction vs as [|v vs IH]; intros x i j a c Hwf Hi Hj Ha Hc.
  - exists x. simpl. auto 10.
  - destruct (add_height_to_images_inside x i j v Hwf Hi Hj)
      as (a0 & c0 & Ha0 & Hc0 & Hx).
    rewrite Ha in Ha0. rewrite Hc in Hc0.
    injection Ha0 as <-. injection Hc0 as <-.
    pose proof (add_height_to_images_wf _ _ _ _ _ Hwf Hx) as Hwf'.
    pose proof (flat_index x i j Hwf Hi Hj) as [_ Hlt].
    destruct Hwf as (_ & _ & Hlc & Hla).
    simpl. rewrite Hx.
    set (x1 := {| cnt := _; avg := _; w := w x; h := h x |}) in *.
    destruct (IH x1 i j (fst (cell_update (a, c) v)) (snd (cell_update (a, c) v)))
      as (x' & Hrun & Hwf'' & Hw' & Hh' & Ha' & Hc'); try assumption.
    + unfold cell_index, x1. simpl. fold (cell_index x i j).
      apply list_lookup_insert_eq. lia.
    + unfold cell_index, x1. simpl. fold (cell_index x i j).
      apply list_lookup_insert_eq. lia.
    + exists x'. rewrite <- surjective_pairing in Ha', Hc'.
      unfold cell_index in *. simpl in *. auto 10.
Qed.

Lemma Qsum_perm (vs vs' : list Q) :
  Permutation vs vs' -> (Qsum vs == Qsum vs')%Q.
Proof.
  induction 1 as [|v l l' _ IH|u v l|l l' l'' _ IH1 _ IH2]; simpl.
  - reflexivity.
  - rewrite IH. reflexivity.
  - ring.
  - rewrite IH1. exact IH2.
Qed.

(** The invariant of the update over the rationals: the count is the
    number of samples folded in, and average times count is their sum. *)
Lemma cell_update_Q_invariant (vs : list Q) : forall (a c total : Q) (n : nat),
  (c == inject_Z (Z.of_nat n))%Q -> (a * c == total)%Q ->
  (snd (fold_left (cell_update (A := Q_arith)) vs (a, c))
     == inject_Z (Z.of_nat (n + length vs)))%Q /\
  (fst (fold_left (cell_update (A := Q_arith)) vs (a, c))
     * snd (fold_left (cell_update (A := Q_arith)) vs (a, c))
     == total + Qsum vs)%Q.
Proof.
  induction vs as [|v vs IH]; intros a c total n Hc Hs; simpl fold_left.
  - simpl. rewrite Nat.add_0_r. split; [exact Hc|]. rewrite Hs. ring.
  - assert (Hpos : (0 <= c)%Q).
    { rewrite Hc. change 0%Q with (inject_Z 0). rewrite <- Zle_Qle. lia. }
    assert (Hne : ~ (1 + c == 0)%Q).
    { intros H0. assert (0 < 1 + c)%Q as Hlt.
      { apply Qlt_le_trans with (1 + 0)%Q; [reflexivity|].
        apply Qplus_le_r. exact Hpos. }
      rewrite H0 in Hlt. exact (Qlt_irrefl _ Hlt). }
    destruct (IH ((v + c * a) / (1 + c))%Q (c + 1)%Q (total + v)%Q (S n))
      as [IHc IHs].
    + rewrite Hc, Nat2Z.inj_succ. unfold Z.succ. rewrite inject_Z_plus.
      reflexivity.
    + rewrite <- Hs. field. exact Hne.
    + simpl length. rewrite <- Nat.add_succ_comm. split; [exact IHc|].
      rewrite IHs. simpl. ring.
Qed.

(** C1, as amended.  Evaluated over the rationals, where no operation
    rounds, the update of [add_height_to_images] started from a cell of
    count 0 leaves in the cell the arithmetic mean of the samples, in
    whatever order they come. *)
Theorem incremental_mean_exact (vs vs' : list Q) :
  vs <> [] -> Permutation vs vs' ->
  (fst (cell_accumulate (A := Q_arith) vs) == Qmean vs)%Q /\
  (fst (cell_accumulate (A := Q_arith) vs')
     == fst (cell_accumulate (A := Q_arith) vs))%Q.
Proof.
  assert (Hmean : forall l : list Q, l <> [] ->
            (fst (cell_accumulate (A := Q_arith) l) == Qmean l)%Q).
  { intros l Hl. unfold cell_accumulate, Qmean.
    destruct (cell_update_Q_invariant l 0%Q 0%Q 0%Q 0%nat) as [Hc Hs];
      [reflexivity | reflexivity |].
    simpl in Hc, Hs |- *. rewrite Hc in Hs.
    assert (Hn : ~ (inject_Z (Z.of_nat (length l)) == 0)%Q).
    { change 0%Q with (inject_Z 0). rewrite inject_Z_injective.
      destruct l; [congruence | simpl; lia]. }
    assert (HS : (Qsum l ==
                  fst (fold_left (cell_update (A := Q_arith)) l (0, 0))
                  * inject_Z (Z.of_nat (length l)))%Q)
      by (rewrite Hs; ring).
    rewrite HS. field. exact Hn. }
  intros Hvs Hperm. split; [apply Hmean; exact Hvs|].
  assert (Hvs' : vs' <> []).
  { intros ->. apply Permutation_nil_r in Hperm. exact (Hvs Hperm). }
  rewrite (Hmean vs Hvs), (Hmean vs' Hvs'). unfold Qmean.
  rewrite (Qsum_perm _ _ Hperm), (Permutation_length Hperm). reflexivity.
Qed.

Lemma incremental_mean_exact_witness :
  (fst (cell_accumulate (A := Q_arith) Examples.samples)
     == Qmean Examples.samples)%Q /\
  (fst (cell_accumulate (A := Q_arith) Examples.samples_rotated)
     == fst (cell_accumulate (A := Q_arith) Examples.samples))%Q.
Proof.
  apply (incremental_mean_exact Examples.samples Examples.samples_rotated).
  - discriminate.
  - unfold Examples.samples, Examples.samples_rotated.
    apply (Permutation_cons_app [6%Q] [2%Q]). simpl.
    apply (Permutation_cons_app [6%Q] []). simpl.
    apply Permutation_refl.
Defined.

(** C1, as stated, fails in the arithmetic of the program: the samples
    16777216, 1, 1 leave 5592405.5 in the cell, the same samples in the
    order 1, 1, 16777216 leave 5592406, which is their mean. *)
Lemma incremental_mean_float_order :
  Permutation Examples.big_first Examples.big_last /\
  avg <$> add_heights (Examples.blank 1 1) 0 0 Examples.big_first
    = Some [Examples.flt "5592405.5"] /\
  avg <$> add_heights (Examples.blank 1 1) 0 0 Examples.big_last
    = Some [Examples.flt "5592406"] /\
  Examples.flt "5592405.5" <> Examples.flt "5592406".
Proof.
  split; [|split; [|split]].
  - unfold Examples.big_first, Examples.big_last.
    apply (Permutation_cons_app [Examples.flt "1"; Examples.flt "1"] []).
    apply Permutation_refl.
  - vm_compute. reflexivity.
  - vm_compute. reflexivity.
  - vm_compute. discriminate.
Qed.

(** ** The mapping of coordinates to cells *)

(** The value returned is the quotient with its fraction dropped, and
    the flag tells whether it lies in [0, w). *)
Lemma rescale_float_to_int_spec x min max w r flag :
  rescale_float_to_int x min max w = Some (r, flag) ->
  IEEE.trunc (rescale_quotient x min max w) = Some r /\
  (flag = true <-> 0 <= r < w).
Proof.
  unfold rescale_float_to_int, IEEE.to_int.
  destruct (IEEE.trunc (rescale_quotient x min max w)) as [z|];
    [|discriminate].
  destruct ((- 2 ^ 31 <=? z) && (z <? 2 ^ 31)); [|discriminate].
  intros H. injection H as <- <-. split; [reflexivity|].
  destruct (z <? 0) eqn:E1, (z >=? w) eqn:E2; split; intros H;
    try discriminate; try reflexivity; lia.
Qed.

(** Dropping the fraction is taking the floor for values that are not
    negative. *)
Lemma trunc_floor_nonneg m e :
  IEEE.trunc (S754_finite false m e) = IEEE.floor (S754_finite false m e).
Proof. unfold IEEE.trunc, IEEE.floor. destruct (0 <=? e); reflexivity. Qed.

(** A record one of whose flags is cleared leaves the images as they
    were, without a message nor an error. *)
Lemma add_point_outside x xmin xmax ymin ymax col data d0 d1 i j flag1 flag2 :
  data !! 0%nat = Some (Some d0) -> data !! 1%nat = Some (Some d1) ->
  rescale_float_to_int d0 (IEEE.cast b64 xmin) (IEEE.cast b64 xmax) (w x)
    = Some (i, flag1) ->
  rescale_float_to_int (IEEE.neg d1) (IEEE.cast b64 (IEEE.neg ymax))
    (IEEE.cast b64 (IEEE.neg ymin)) (h x) = Some (j, flag2) ->
  flag1 = false \/ flag2 = false ->
  add_point x xmin xmax ymin ymax col data = Ok x.
Proof.
  intros H0 H1 Hi Hj Hflag. unfold add_point.
  rewrite H0, H1. cbn [mjoin option_join defined mbind outcome_bind].
  rewrite Hi, Hj. cbn [defined mbind outcome_bind].
  destruct Hflag as [-> | ->]; [reflexivity|].
  rewrite andb_false_r. reflexivity.
Qed.

(** C2 at x = -0.5 in the box [0, 10] with w = 11: the quotient is -0.55,
    whose floor is -1, yet the conversion to [int] gives column 0 and the
    flag stays set; the record is accumulated in column 0 (row 5, flat
    index 55), where the count becomes 1. *)
Theorem rescale_truncates_toward_zero :
  IEEE.floor (rescale_quotient (Examples.dbl "-0.5") (Examples.dbl "0")
                (Examples.dbl "10") 11) = Some (-1) /\
  rescale_float_to_int (Examples.dbl "-0.5") (Examples.dbl "0")
    (Examples.dbl "10") 11 = Some (0, true) /\
  (fun x' => cnt x' !! 55%nat)
    <$> add_point (Examples.blank 11 11) (Examples.flt "0") (Examples.flt "10")
          (Examples.flt "0") (Examples.flt "10") 2 Examples.stray
    = Ok (Some (Examples.flt "1")).
Proof.
  split; [|split]; vm_compute; reflexivity.
Qed.

(** ** Worked runs *)

(** The run of the scene of the design document: one tile, the points
    (2.5, 2.5, 5.0) and (2.6, 2.6, 7.0), the box (0, 10, 0, 10) at
    resolution 1. *)
Lemma scene_run :
  main Examples.scene_fs push_last Examples.box_0_10 =
  Ok {| out_path := "dsm.tif"; raster := Examples.scene_raster;
        out_w := 11; out_h := 11; geo_utm := Some "31";
        geo_xoff := Examples.flt "0"; geo_yoff := Examples.flt "10";
        geo_scale := Examples.flt "1"; printed := [] |}.
Proof. vm_compute. reflexivity. Qed.

(** C3, as amended.  The raster of the scene has 11 columns and 11 rows;
    its cell at column 2, row 8 holds 6.0 and every other cell is NaN. *)
Theorem scene_cell_2_8 :
  exists p,
    main Examples.scene_fs push_last Examples.box_0_10 = Ok p /\
    out_w p = 11 /\ out_h p = 11 /\
    raster p !! Z.to_nat (11 * 8 + 2) = Some (Examples.flt "6") /\
    forall i j, 0 <= i < 11 -> 0 <= j < 11 -> (i, j) <> (2, 8) ->
      raster p !! Z.to_nat (11 * j + i) = Some IEEE.nan.
Proof.
  eexists. split; [exact scene_run|]. simpl.
  split; [reflexivity|]. split; [reflexivity|]. split; [reflexivity|].
  intros i j Hi Hj Hij. unfold Examples.scene_raster.
  rewrite list_lookup_insert_ne.
  - apply lookup_replicate_2. lia.
  - intros Heq. apply Hij.
    assert (11 * j + i = 90) as H90 by lia.
    assert (j = 8) by lia. assert (i = 2) by lia. congruence.
Qed.

(** C3, as stated, fails: in the raster of the scene the cell at column
    2, row 7 is not 6.0. *)
Lemma scene_cell_2_7_empty :
  ~ exists p,
      main Examples.scene_fs push_last Examples.box_0_10 = Ok p /\
      raster p !! Z.to_nat (out_w p * 7 + 2) = Some (Examples.flt "6") /\
      forall k : nat, k <> Z.to_nat (out_w p * 7 + 2) ->
        (k < length (raster p))%nat -> raster p !! k = Some IEEE.nan.
Proof.
  intros (p & Hp & H6 & _). rewrite scene_run in Hp.
  injection Hp as <-. vm_compute in H6. discriminate.
Qed.

(** C6, as stated, fails: with xmin = ymin = 10, xmax = ymax = 0 and
    resolution -1 the run is not rejected; it ends with the calls that
    write an 11 by 11 raster. *)
Lemma reversed_box_accepted :
  IEEE.leb (xmax Examples.reversed_box) (xmin Examples.reversed_box) = true /\
  IEEE.leb (ymax Examples.reversed_box) (ymin Examples.reversed_box) = true /\
  IEEE.leb (resolution Examples.reversed_box) (S754_zero false) = true /\
  main Examples.no_tiles_fs push_last Examples.reversed_box =
  Ok {| out_path := "dsm.tif"; raster := replicate 121 IEEE.nan;
        out_w := 11; out_h := 11; geo_utm := None;
        geo_xoff := Examples.flt "10"; geo_yoff := Examples.flt "0";
        geo_scale := Examples.flt "-1"; printed := [] |}.
Proof. repeat split; vm_compute; reflexivity. Qed.

(** C7 on a list of two tiles, the second with an extent file that holds
    no number: the tile is not skipped and nothing is printed; its extent
    is taken to be that of the first tile, its cloud is ingested, and its
    point (7.5, 7.5, 9.0) is in the raster, at column 8, row 2. *)
Theorem malformed_extent_not_skipped :
  sel_list <$> select_tiles Examples.malformed_fs push_last Examples.box_0_10
                 (line "a" +:+ line "b")
    = Ok ["a/cloud.ply"; "b/cloud.ply"] /\
  printed <$> main Examples.malformed_fs push_last Examples.box_0_10 = Ok [] /\
  (fun p => raster p !! Z.to_nat (11 * 2 + 8))
    <$> main Examples.malformed_fs push_last Examples.box_0_10
    = Ok (Some (Examples.flt "9")).
Proof. repeat split; vm_compute; reflexivity. Qed.

(** C8 with column 7: when the only tile is outside the box no file is
    ingested, the column is never checked, and the run ends with the
    calls that write a raster; with a tile inside the box the same column
    ends the run with status 21. *)
Theorem bad_column_unchecked_without_files :
  main Examples.far_fs push_last Examples.column_7 =
  Ok {| out_path := "dsm.tif"; raster := replicate 121 IEEE.nan;
        out_w := 11; out_h := 11; geo_utm := None;
        geo_xoff := Examples.flt "0"; geo_yoff := Examples.flt "10";
        geo_scale := Examples.flt "1"; printed := [] |} /\
  main Examples.scene_fs push_last Examples.column_7 = Exit 21.
Proof. split; vm_compute; reflexivity. Qed.

(** C5, as stated, fails.  Of three tiles in zones 31, 32 and in no
    declared zone, the zone given to [set_geotif_header] is 32; the first
    file ingested is the first tile (zone 31) when [push] adds at the
    end, and the third (no zone) when [push] adds in front. *)
Lemma zone_of_first_file_not_kept :
  (sel_list <$> select_tiles Examples.zones_fs push_last Examples.box_0_10
                  (line "a" +:+ line "b" +:+ line "c")
     = Ok ["a/cloud.ply"; "b/cloud.ply"; "c/cloud.ply"] /\
   declared_zone Examples.zones_fs "a/cloud.ply" = Some "31" /\
   geo_utm <$> main Examples.zones_fs push_last Examples.box_0_10
     = Ok (Some "32")) /\
  (sel_list <$> select_tiles Examples.zones_fs push_front Examples.box_0_10
                  (line "a" +:+ line "b" +:+ line "c")
     = Ok ["c/cloud.ply"; "b/cloud.ply"; "a/cloud.ply"] /\
   declared_zone Examples.zones_fs "c/cloud.ply" = None /\
   geo_utm <$> main Examples.zones_fs push_front Examples.box_0_10
     = Ok (Some "32")).
Proof. repeat split; vm_compute; reflexivity. Qed.

(** C4, as stated, fails: a header with no format line leaves the
    encoding at text, not binary. *)
Lemma no_format_line_is_ascii :
  (fun r : header * FILE => isbin (fst r))
    <$> header_get_record_length_and_utm_zone
          (fopen_contents Examples.bare_header) None
    = Ok false.
Proof. vm_compute. reflexivity. Qed.

(** ** The header *)

Lemma header_line_isbin hd buf :
  isbin (header_line hd buf) = encoding_step (isbin hd) buf.
Proof.
  unfold header_line, encoding_step.
  destruct (String.eqb buf format_binary); [reflexivity|].
  destruct (String.eqb buf format_ascii); [reflexivity|].
  destruct (parse_property_line buf); [reflexivity|].
  destruct (strip_prefix _ buf); [|reflexivity].
  destruct (scan_projection buf); reflexivity.
Qed.

Lemma header_loop_isbin fuel : forall f_in hd hd' f',
  header_loop fuel f_in hd = Ok (hd', f') ->
  isbin hd' = fold_left encoding_step (header_lines fuel f_in) (isbin hd).
Proof.
  induction fuel as [|fuel IH]; intros f_in hd hd' f' H; simpl in H |- *.
  - discriminate.
  - destruct (fgets FILENAME_MAX f_in) as [[l|] f1].
    + destruct (String.eqb (c_str l) end_header).
      * injection H as <- _. simpl. apply header_line_isbin.
      * simpl. rewrite <- header_line_isbin. apply (IH _ _ _ _ H).
    + injection H as <- _. reflexivity.
Qed.

Lemma encoding_step_other (ls : list string) : forall b,
  Forall (fun l => is_format_line l = false) ls ->
  fold_left encoding_step ls b = b.
Proof.
  induction ls as [|l ls IH]; intros b Hall; [reflexivity|].
  inversion Hall as [|? ? Hl Hls]; subst. simpl. rewrite IH by exact Hls.
  unfold encoding_step. unfold is_format_line in Hl.
  apply orb_false_elim in Hl as [-> ->]. reflexivity.
Qed.

(** C4, as amended.  Of the lines the parser goes through, the last that
    is [format binary_little_endian 1.0] or [format ascii 1.0] sets the
    encoding, to binary or to text; when there is no such line the encoding
    is text. *)
Theorem header_encoding f_in utm0 hd f' :
  header_get_record_length_and_utm_zone f_in utm0 = Ok (hd, f') ->
  let ls := header_lines (S (String.length (rest f_in))) f_in in
  (forall pre post, ls = pre ++ format_binary :: post ->
     Forall (fun l => is_format_line l = false) post -> isbin hd = true) /\
  (forall pre post, ls = pre ++ format_ascii :: post ->
     Forall (fun l => is_format_line l = false) post -> isbin hd = false) /\
  (Forall (fun l => is_format_line l = false) ls -> isbin hd = false).
Proof.
  intros H ls. apply header_loop_isbin in H. fold ls in H. simpl in H.
  split; [|split].
  - intros pre post Hls Hpost. rewrite H, Hls, fold_left_app. simpl.
    rewrite encoding_step_other by exact Hpost. reflexivity.
  - intros pre post Hls Hpost. rewrite H, Hls, fold_left_app. simpl.
    rewrite encoding_step_other by exact Hpost. reflexivity.
  - intros Hall. rewrite H. apply encoding_step_other. exact Hall.
Qed.

Lemma header_encoding_witness :
  let ls := header_lines
              (S (String.length
                    (rest (fopen_contents
                             (Examples.cloud_header "binary_little_endian 1.0"
                                "31N")))))
              (fopen_contents
                 (Examples.cloud_header "binary_little_endian 1.0" "31N")) in
  (forall pre post, ls = pre ++ format_binary :: post ->
     Forall (fun l => is_format_line l = false) post ->
     isbin Examples.binary_parsed = true) /\
  (forall pre post, ls = pre ++ format_ascii :: post ->
     Forall (fun l => is_format_line l = false) post ->
     isbin Examples.binary_parsed = false) /\
  (Forall (fun l => is_format_line l = false) ls ->
   isbin Examples.binary_parsed = false).
Proof.
  apply (header_encoding
           (fopen_contents
              (Examples.cloud_header "binary_little_endian 1.0" "31N"))
           None Examples.binary_parsed {| rest := ""; eof := false |}).
  vm_compute. reflexivity.
Defined.

(** ** The zone of the run *)

(** A header that the caller's arrays hold is parsed as the parser
    does. *)
Lemma parse_header_Ok f_in u r :
  parse_header f_in u = Ok r ->
  header_fits f_in = true /\
  header_get_record_length_and_utm_zone f_in u = Ok r.
Proof.
  unfold parse_header. destruct (header_fits f_in); [auto|discriminate].
Qed.

Section Zone.
Context {libc : Libc}.
Variable fs : gmap string string.

Lemma header_line_utm hd buf :
  utm (header_line hd buf) = zone_step (utm hd) buf.
Proof.
  unfold header_line, zone_step, line_zone, is_format_line.
  destruct (String.eqb buf format_binary); [reflexivity|].
  destruct (String.eqb buf format_ascii); [reflexivity|]. cbn [orb].
  destruct (parse_property_line buf); [reflexivity|].
  destruct (strip_prefix _ buf); [|reflexivity].
  destruct (scan_projection buf); reflexivity.
Qed.

Lemma header_loop_utm fuel : forall f_in hd hd' f',
  header_loop fuel f_in hd = Ok (hd', f') ->
  utm hd' = fold_left zone_step (header_lines fuel f_in) (utm hd).
Proof.
  induction fuel as [|fuel IH]; intros f_in hd hd' f' H; simpl in H |- *.
  - discriminate.
  - destruct (fgets FILENAME_MAX f_in) as [[l|] f1].
    + destruct (String.eqb (c_str l) end_header).
      * injection H as <- _. simpl. apply header_line_utm.
      * simpl. rewrite <- header_line_utm. apply (IH _ _ _ _ H).
    + injection H as <- _. reflexivity.
Qed.

(** Whether the header loop ends does not depend on what it gathers. *)
Lemma header_loop_ends fuel : forall f_in hd1 hd2 hd1' f',
  header_loop fuel f_in hd1 = Ok (hd1', f') ->
  exists hd2', header_loop fuel f_in hd2 = Ok (hd2', f').
Proof.
  induction fuel as [|fuel IH]; intros f_in hd1 hd2 hd1' f' H; simpl in H |- *.
  - discriminate.
  - destruct (fgets FILENAME_MAX f_in) as [[l|] f1].
    + destruct (String.eqb (c_str l) end_header).
      * injection H as _ <-. eexists. reflexivity.
      * apply (IH _ _ _ _ _ H).
    + injection H as _ <-. eexists. reflexivity.
Qed.

Lemma zone_step_from (ls : list string) : forall u,
  fold_left zone_step ls u =
  match fold_left zone_step ls None with
  | Some zone => Some zone
  | None => u
  end.
Proof.
  induction ls as [|l ls IH]; intros u; simpl; [reflexivity|].
  rewrite (IH (zone_step u l)), (IH (zone_step None l)).
  destruct (fold_left zone_step ls None); [reflexivity|].
  unfold zone_step. destruct (line_zone l); reflexivity.
Qed.

(** A header read into an array that holds [u] leaves in it the zone the
    file declares, or [u] when it declares none. *)
Lemma header_utm_declared fname contents u hd f' :
  fs !! fname = Some contents ->
  header_get_record_length_and_utm_zone (fopen_contents contents) u
    = Ok (hd, f') ->
  utm hd = match declared_zone fs fname with
           | Some zone => Some zone
           | None => u
           end.
Proof.
  intros Hfs H. unfold declared_zone. rewrite Hfs.
  unfold header_get_record_length_and_utm_zone in *.
  destruct (header_loop_ends _ _ _
              {| props := []; isbin := false; utm := None |} _ _ H)
    as [hd0 H0].
  rewrite H0. apply header_loop_utm in H. apply header_loop_utm in H0.
  simpl in H, H0. rewrite H, H0. apply zone_step_from.
Qed.

Lemma last_zone_snoc l fname :
  last_zone fs (l ++ [fname]) =
  match declared_zone fs fname with
  | Some zone => Some zone
  | None => last_zone fs l
  end.
Proof.
  unfold last_zone. rewrite omap_app. simpl.
  destruct (declared_zone fs fname).
  - apply last_snoc.
  - rewrite app_nil_r. reflexivity.
Qed.

(** One turn of the first loop of [main]: the way [push] adds to the list
    changes the list only, and with [push_last] the array [utm] holds the
    zone of the last file of the list that declares one. *)
Lemma select_tile_zone push a l s1 s2 s1' :
  same_but_list s1 s2 ->
  sel_utm s2 = last_zone fs (sel_list s2) ->
  select_tile fs push a s1 l = Ok s1' ->
  exists s2',
    select_tile fs push_last a s2 l = Ok s2' /\
    same_but_list s1' s2' /\
    sel_utm s2' = last_zone fs (sel_list s2').
Proof.
  intros (He & Hu & Hp) Hinv H. unfold select_tile in *.
  rewrite <- He, <- Hu, <- Hp.
  destruct (negb (word_fits 1000 _)); [discriminate|].
  destruct (fs !! _) as [contents|].
  - destruct (overlap _ _ _ _ _) as [[|]|]; simpl in H |- *;
      try discriminate.
    + destruct (fs !! (_ +:+ "/cloud.ply")) as [ply|] eqn:Hply.
      * destruct (parse_header _ _)
          as [[hd f']| | | |] eqn:Hhd; simpl in H |- *; try discriminate.
        apply parse_header_Ok in Hhd as [_ Hhd].
        injection H as <-. eexists. split; [reflexivity|].
        split; [repeat split|]. simpl.
        unfold push_last. rewrite last_zone_snoc.
        rewrite (header_utm_declared _ _ _ _ _ Hply Hhd), Hu, Hinv.
        reflexivity.
      * injection H as <-. eexists. split; [reflexivity|].
        split; [repeat split|]. simpl. rewrite <- Hinv, Hu. reflexivity.
    + injection H as <-. eexists. split; [reflexivity|].
      split; [repeat split|]. simpl. rewrite <- Hinv, Hu. reflexivity.
  - injection H as <-. eexists. split; [reflexivity|].
    split; [repeat split|]. simpl. rewrite <- Hinv, Hu. reflexivity.
Qed.

Lemma select_loop_zone push a fuel : forall f s1 s2 s1',
  same_but_list s1 s2 ->
  sel_utm s2 = last_zone fs (sel_list s2) ->
  select_loop fs push fuel a f s1 = Ok s1' ->
  exists s2',
    select_loop fs push_last fuel a f s2 = Ok s2' /\
    same_but_list s1' s2' /\
    sel_utm s2' = last_zone fs (sel_list s2').
Proof.
  induction fuel as [|fuel IH]; intros f s1 s2 s1' Hrel Hinv H;
    simpl in H |- *.
  - discriminate.
  - destruct (fgets 1000 f) as [[l|] f1].
    + destruct (select_tile fs push a s1 l) as [s1m| | | |] eqn:Hstep;
        simpl in H; try discriminate.
      destruct (select_tile_zone push a l s1 s2 s1m Hrel Hinv Hstep)
        as (s2m & -> & Hrel' & Hinv').
      simpl. apply (IH _ _ _ _ Hrel' Hinv' H).
    + injection H as <-. exists s2. auto.
Qed.

(** The zone passed in changes the messages of
    [add_ply_points_to_images], never the images nor the way it ends. *)
Lemma add_ply_points_zone_messages st xmin xmax ymin ymax z z' fname col :
  fst <$> add_ply_points_to_images fs st xmin xmax ymin ymax z fname col =
  fst <$> add_ply_points_to_images fs st xmin xmax ymin ymax z' fname col.
Proof.
  unfold add_ply_points_to_images. destruct st as [x msgs].
  destruct (fs !! fname); [|reflexivity].
  destruct (parse_header _ _) as [[hd f]| | | |]; try reflexivity.
  cbn -[add_points_loop stream_left Z.ltb Z.gtb].
  destruct ((col <? 2) || (col >? 5)); [reflexivity|].
  destruct (add_points_loop _ _ _ _ _ _ _ _ _ _ _ _); reflexivity.
Qed.

Lemma zones_differ_decide zone file_zone :
  zones_differ zone file_zone =
  if decide (string_take 3 zone = string_take 3 file_zone)
  then false else true.
Proof.
  unfold zones_differ.
  destruct (String.eqb_spec (string_take 3 zone) (string_take 3 file_zone));
    destruct (decide _); simpl; congruence.
Qed.

(** What the ingestion of one file prints: nothing for a file of the zone
    it is compared with, one message for a file of another zone. *)
Lemma add_ply_points_messages st xmin xmax ymin ymax z fname col st' :
  add_ply_points_to_images fs st xmin xmax ymin ymax z fname col = Ok st' ->
  st'.2 = st.2 ++ file_messages fs z fname.
Proof.
  unfold add_ply_points_to_images, file_messages, declared_zone.
  destruct st as [x msgs].
  destruct (fs !! fname) as [contents|];
    [|intros H; injection H as <-; reflexivity].
  destruct (parse_header _ _) as [[hd f]| | | |] eqn:Hhd; try discriminate.
  apply parse_header_Ok in Hhd as [_ Hhd]. rewrite Hhd.
  cbn -[add_points_loop stream_left Z.ltb Z.gtb].
  destruct ((col <? 2) || (col >? 5)); [discriminate|].
  destruct (add_points_loop _ _ _ _ _ _ _ _ _ _ _ _); try discriminate.
  intros H. injection H as <-. cbn [snd].
  destruct z as [zone|], (utm hd) as [file_zone|]; try reflexivity.
  rewrite zones_differ_decide.
  destruct (decide _); [rewrite app_nil_r|]; reflexivity.
Qed.

Lemma ingest_messages a z l : forall st st',
  ingest fs a z l st = Ok st' ->
  st'.2 = st.2 ++ zone_messages fs z l.
Proof.
  induction l as [|current next IH]; intros st st' H; simpl in H.
  - injection H as <-. unfold zone_messages. simpl. rewrite app_nil_r.
    reflexivity.
  - destruct (add_ply_points_to_images _ _ _ _ _ _ _ _ _) as [st1| | | |]
      eqn:Hadd; simpl in H; try discriminate.
    rewrite (IH _ _ H), (add_ply_points_messages _ _ _ _ _ _ _ _ _ Hadd).
    unfold zone_messages. simpl. rewrite app_assoc. reflexivity.
Qed.

Lemma zone_messages_elem z l fname m :
  fname ∈ l -> m ∈ file_messages fs z fname -> m ∈ zone_messages fs z l.
Proof.
  intros Hin Hm. unfold zone_messages.
  induction Hin as [fname l|fname other l Hin IH]; simpl;
    apply elem_of_app; [left; exact Hm | right; exact (IH Hm)].
Qed.

(** C5, as amended.  The zone a complete run gives to [set_geotif_header]
    is the zone declared by the last of the selected files, in the order
    of the list of tiles, that declares one (the ingestion never assigns
    it), whatever way [push] adds to the list; the zone a file is compared
    with changes the messages only, not the images; and the run prints,
    after the messages of the selection, those of the files ingested, in
    their order: nothing for a file whose zone has the first three
    characters of the zone given to [set_geotif_header], the message
    "different UTM zones" for a file whose zone differs there, so that this
    message is among those of a complete run that has ingested such a
    file. *)
Theorem zone_given_to_geotiff push a p :
  main fs push a = Ok p ->
  (exists contents s,
     fs !! list_of_tiles a = Some contents /\
     select_tiles fs push_last a contents = Ok s /\
     geo_utm p = last_zone fs (sel_list s)) /\
  (forall st z z' fname,
     fst <$> add_ply_points_to_images fs st (xmin a) (xmax a) (ymin a)
               (ymax a) z fname (col_idx a) =
     fst <$> add_ply_points_to_images fs st (xmin a) (xmax a) (ymin a)
               (ymax a) z' fname (col_idx a)) /\
  (exists contents s,
     fs !! list_of_tiles a = Some contents /\
     select_tiles fs push a contents = Ok s /\
     printed p = sel_printed s ++ zone_messages fs (geo_utm p) (sel_list s) /\
     forall fname zone file_zone,
       fname ∈ sel_list s ->
       geo_utm p = Some zone ->
       declared_zone fs fname = Some file_zone ->
       string_take 3 zone <> string_take 3 file_zone ->
       DifferentUtmZones ∈ printed p).
Proof.
  intros H. unfold main in H. destruct (negb (argc a =? 8)); [discriminate|].
  destruct (fs !! list_of_tiles a) as [contents|]; [|discriminate].
  destruct (select_tiles fs push a contents) as [s1| | | |] eqn:Hsel;
    simpl in H; try discriminate.
  destruct (side (xmin a) (xmax a) (resolution a)); simpl in H;
    [|discriminate].
  destruct (side (ymin a) (ymax a) (resolution a)); simpl in H;
    [|discriminate].
  destruct ((0 <? _) && (0 <? _)); [|discriminate].
  destruct (ingest _ _ _ _ _) as [[x msgs]| | | |] eqn:Hing; simpl in H;
    try discriminate.
  injection H as <-. cbn [geo_utm printed].
  apply ingest_messages in Hing. cbn [snd] in Hing.
  split; [|split; [intros; apply add_ply_points_zone_messages|]].
  - unfold select_tiles in Hsel.
    destruct (select_loop_zone push a _ _ _
                {| sel_extent := {| local_xmin := None; local_xmax := None;
                                    local_ymin := None; local_ymax := None |};
                   sel_utm := None; sel_list := []; sel_printed := [] |}
                _ (conj eq_refl (conj eq_refl eq_refl)) eq_refl Hsel)
      as (s2 & Hsel2 & (_ & Hu & _) & Hinv).
    exists contents, s2. split; [reflexivity|]. split; [exact Hsel2|].
    rewrite Hu. exact Hinv.
  - exists contents, s1. split; [reflexivity|]. split; [exact Hsel|].
    split; [exact Hing|].
    intros fname zone file_zone Hin Hzone Hfile Hne. rewrite Hing.
    apply elem_of_app. right. apply (zone_messages_elem _ _ _ _ Hin).
    unfold file_messages. rewrite Hzone, Hfile.
    assert (Hopen : is_Some (fs !! fname)).
    { unfold declared_zone in Hfile.
      destruct (fs !! fname); [eauto | discriminate]. }
    destruct Hopen as [c ->].
    destruct (decide _); [contradiction | left].
Qed.

End Zone.

Lemma zone_given_to_geotiff_witness :
  (exists contents s,
     Examples.zones_fs !! list_of_tiles Examples.box_0_10 = Some contents /\
     select_tiles Examples.zones_fs push_last Examples.box_0_10 contents
       = Ok s /\
     geo_utm Examples.zones_product
       = last_zone Examples.zones_fs (sel_list s)) /\
  (forall st z z' fname,
     fst <$> add_ply_points_to_images Examples.zones_fs st
               (xmin Examples.box_0_10) (xmax Examples.box_0_10)
               (ymin Examples.box_0_10) (ymax Examples.box_0_10)
               z fname (col_idx Examples.box_0_10) =
     fst <$> add_ply_points_to_images Examples.zones_fs st
               (xmin Examples.box_0_10) (xmax Examples.box_0_10)
               (ymin Examples.box_0_10) (ymax Examples.box_0_10)
               z' fname (col_idx Examples.box_0_10)) /\
  (exists contents s,
     Examples.zones_fs !! list_of_tiles Examples.box_0_10 = Some contents /\
     select_tiles Examples.zones_fs push_front Examples.box_0_10 contents
       = Ok s /\
     printed Examples.zones_product
       = sel_printed s ++
         zone_messages Examples.zones_fs (geo_utm Examples.zones_product)
           (sel_list s) /\
     forall fname zone file_zone,
       fname ∈ sel_list s ->
       geo_utm Examples.zones_product = Some zone ->
       declared_zone Examples.zones_fs fname = Some file_zone ->
       string_take 3 zone <> string_take 3 file_zone ->
       DifferentUtmZones ∈ printed Examples.zones_product).
Proof.
  apply (zone_given_to_geotiff Examples.zones_fs push_front
           Examples.box_0_10 Examples.zones_product).
  vm_compute. reflexivity.
Defined.

(** ** What ends a run *)

Lemma no_exit_bind {A B : Type} (m : outcome A) (k : A -> outcome B) :
  no_exit m -> (forall a, no_exit (k a)) -> no_exit (m ≫= k).
Proof.
  intros Hm Hk code. destruct m as [a| c | | |]; simpl; try discriminate.
  - apply Hk.
  - intros _. exact (Hm c eq_refl).
Qed.

Lemma no_exit_defined {A : Type} (o : option A) : no_exit (defined o).
Proof. intros code. destruct o; discriminate. Qed.

Lemma no_exit_Ok {A : Type} (a : A) : no_exit (Ok a).
Proof. intros code. discriminate. Qed.

Lemma header_loop_no_exit fuel : forall f_in hd,
  no_exit (header_loop fuel f_in hd).
Proof.
  induction fuel as [|fuel IH]; intros f_in hd; simpl.
  - intros code. discriminate.
  - destruct (fgets FILENAME_MAX f_in) as [[l|] f1].
    + destruct (String.eqb (c_str l) end_header);
        [apply no_exit_Ok | apply IH].
    + apply no_exit_Ok.
Qed.

Lemma parse_header_no_exit f_in u : no_exit (parse_header f_in u).
Proof.
  unfold parse_header. destruct (header_fits f_in).
  - apply header_loop_no_exit.
  - intros code. discriminate.
Qed.

Lemma decimal_digits_pos fuel : forall z, 1 <= decimal_digits fuel z.
Proof.
  induction fuel as [|fuel IH]; intros z; simpl; [lia|].
  destruct (z <? 10); [lia|]. specialize (IH (z / 10)). lia.
Qed.

Lemma bad_col_idx_status_min col : 21 <= bad_col_idx_status col.
Proof.
  unfold bad_col_idx_status.
  pose proof (decimal_digits_pos 10 (Z.abs col)).
  destruct (col <? 0); lia.
Qed.

Section Ends.
Context {libc : Libc}.
Variable fs : gmap string string.
Variable push : list string -> string -> list string.

(** A tile whose extent file cannot be opened is passed over with a
    message; the list, the extent and the zone are as before. *)
Lemma select_tile_missing_extrema a s l :
  word_fits 1000 (strtok_newline (c_str l) +:+ "/plyextrema.txt") = true ->
  fs !! (strtok_newline (c_str l) +:+ "/plyextrema.txt") = None ->
  select_tile fs push a s l =
  Ok {| sel_extent := sel_extent s; sel_utm := sel_utm s;
        sel_list := sel_list s;
        sel_printed := sel_printed s ++
          [CantReadExtrema (strtok_newline (c_str l) +:+ "/plyextrema.txt")] |}.
Proof. intros Hfit H. unfold select_tile. rewrite Hfit, H. reflexivity. Qed.

Lemma select_tile_no_exit a s l : no_exit (select_tile fs push a s l).
Proof.
  unfold select_tile.
  destruct (negb (word_fits 1000 _)); [intros code; discriminate|].
  destruct (fs !! _); [|apply no_exit_Ok].
  apply no_exit_bind; [apply no_exit_defined|]. intros [|];
    [|apply no_exit_Ok].
  destruct (fs !! _); [|apply no_exit_Ok].
  apply no_exit_bind; [apply parse_header_no_exit|].
  intros [hd f]. apply no_exit_Ok.
Qed.

Lemma select_loop_no_exit a fuel : forall f s,
  no_exit (select_loop fs push fuel a f s).
Proof.
  induction fuel as [|fuel IH]; intros f s; simpl.
  - intros code. discriminate.
  - destruct (fgets 1000 f) as [[l|] f1]; [|apply no_exit_Ok].
    apply no_exit_bind; [apply select_tile_no_exit|]. intros s'. apply IH.
Qed.

Lemma add_point_no_exit x xmin xmax ymin ymax col data :
  no_exit (add_point x xmin xmax ymin ymax col data).
Proof.
  unfold add_point.
  apply no_exit_bind; [apply no_exit_defined|]. intros d0.
  apply no_exit_bind; [apply no_exit_defined|]. intros [i flag1].
  apply no_exit_bind; [apply no_exit_defined|]. intros d1.
  apply no_exit_bind; [apply no_exit_defined|]. intros [j flag2].
  destruct (flag1 && flag2); [|apply no_exit_Ok].
  destruct (col =? 2).
  - apply no_exit_bind; [apply no_exit_defined|]. intros d2.
    apply no_exit_bind; [apply no_exit_defined|]. intros x'.
    destruct (IEEE.isfinite d2); [apply no_exit_Ok|]. intros code.
    discriminate.
  - apply no_exit_bind; [apply no_exit_defined|]. intros dc.
    apply no_exit_bind; [apply no_exit_defined|]. intros rgb.
    apply no_exit_defined.
Qed.

Lemma add_points_loop_no_exit xmin xmax ymin ymax col isbin t n fuel :
  forall x f data,
  no_exit (add_points_loop fuel x xmin xmax ymin ymax col isbin t n f data).
Proof.
  induction fuel as [|fuel IH]; intros x f data; simpl.
  - intros code. discriminate.
  - destruct (get_record f isbin t n data) as [[rec data'] f'].
    destruct (Z.of_nat n =? u64 rec); [|apply no_exit_Ok].
    apply no_exit_bind; [apply add_point_no_exit|]. intros x'. apply IH.
Qed.

(** A file ends the run only through the test of the column. *)
Lemma add_ply_points_exit st xmin xmax ymin ymax z fname col code :
  add_ply_points_to_images fs st xmin xmax ymin ymax z fname col = Exit code ->
  code = bad_col_idx_status col /\ (col < 2 \/ 5 < col).
Proof.
  unfold add_ply_points_to_images. destruct st as [x msgs].
  destruct (fs !! fname); [|discriminate].
  destruct (parse_header _ _) as [[hd f]| c | | |] eqn:Hhd;
    try discriminate.
  - cbn -[add_points_loop stream_left Z.ltb Z.gtb].
    destruct ((col <? 2) || (col >? 5)) eqn:Hcol.
    + intros H. injection H as <-. split; [reflexivity|].
      apply orb_true_iff in Hcol as [Hc|Hc]; lia.
    + intros H.
      pose proof (add_points_loop_no_exit xmin xmax ymin ymax col (isbin hd)
                    (props hd) (length (props hd))
                    (S (stream_left f)) x f
                    (replicate (length (props hd)) None) code) as Hno.
      destruct (add_points_loop _ _ _ _ _ _ _ _ _ _ _ _); try discriminate.
      exfalso. apply Hno. injection H as ->. reflexivity.
  - exfalso. exact (parse_header_no_exit _ _ c Hhd).
Qed.

Lemma ingest_exit a z l : forall st code,
  ingest fs a z l st = Exit code ->
  code = bad_col_idx_status (col_idx a) /\ (col_idx a < 2 \/ 5 < col_idx a).
Proof.
  induction l as [|current next IH]; intros st code H; simpl in H.
  - discriminate.
  - destruct (add_ply_points_to_images _ _ _ _ _ _ _ _ _) as [st'| c | | |]
      eqn:Hadd; simpl in H; try discriminate.
    + apply (IH _ _ H).
    + injection H as <-. apply (add_ply_points_exit _ _ _ _ _ _ _ _ _ Hadd).
Qed.

(** C6, as amended.  [main] makes no test of the box nor of the
    resolution: it ends the run at once, with status 1 and nothing
    written, exactly when the count of arguments is not 8 or the list of
    tiles cannot be opened. *)
Theorem rejected_at_start a :
  main fs push a = Exit 1 <->
  argc a <> 8 \/ fs !! list_of_tiles a = None.
Proof.
  unfold main. destruct (argc a =? 8) eqn:Hargc; simpl.
  - apply Z.eqb_eq in Hargc.
    destruct (fs !! list_of_tiles a) as [contents|].
    + split; [|intros [H|H]; [contradiction | discriminate]].
      intros H. exfalso.
      destruct (select_tiles fs push a contents) as [s| c | | |] eqn:Hsel;
        simpl in H; try discriminate.
      * destruct (side (xmin a) (xmax a) (resolution a)); simpl in H;
          [|discriminate].
        destruct (side (ymin a) (ymax a) (resolution a)); simpl in H;
          [|discriminate].
        destruct ((0 <? _) && (0 <? _)); [|discriminate].
        destruct (ingest _ _ _ _ _) as [[x msgs]| c | | |] eqn:Hing;
          simpl in H; try discriminate.
        injection H as ->. apply ingest_exit in Hing as [Hc _].
        pose proof (bad_col_idx_status_min (col_idx a)). lia.
      * exact (select_loop_no_exit _ _ _ _ c Hsel).
    + split; [right; reflexivity | reflexivity].
  - apply Z.eqb_neq in Hargc. split; [left; exact Hargc | reflexivity].
Qed.

End Ends.

(** ** Every loop of the model ends *)

Lemma ends_bind {A B : Type} (m : outcome A) (k : A -> outcome B) :
  ends m -> (forall a, ends (k a)) -> ends (m ≫= k).
Proof.
  intros Hm Hk. destruct m as [a| c | | |]; simpl; try discriminate.
  - apply Hk.
  - intros _. exact (Hm eq_refl).
Qed.

Lemma ends_defined {A : Type} (o : option A) : ends (defined o).
Proof. destruct o; discriminate. Qed.

Lemma ends_Ok {A : Type} (a : A) : ends (Ok a).
Proof. discriminate. Qed.

Lemma read_line_length k : forall s l r e,
  read_line k s = (l, r, e) ->
  String.length s = (String.length l + String.length r)%nat.
Proof.
  induction k as [|k IH]; intros s l r e H; simpl in H.
  - injection H as <- <- _. reflexivity.
  - destruct s as [|c s]; [injection H as <- <- _; reflexivity|].
    destruct (Ascii.eqb c nl); [injection H as <- <- _; reflexivity|].
    destruct (read_line k s) as [[l1 r1] e1] eqn:E.
    injection H as <- <- _. simpl. rewrite (IH _ _ _ _ E). reflexivity.
Qed.

(** A line that [fgets] delivers has been taken off the stream. *)
Lemma fgets_shrinks size f l f' :
  fgets size f = (Some l, f') ->
  (String.length (rest f') < String.length (rest f))%nat.
Proof.
  unfold fgets. destruct (read_line (size - 1) (rest f)) as [[l1 r1] e1] eqn:E.
  apply read_line_length in E. destruct l1 as [|c l1]; [discriminate|].
  intros H. injection H as _ <-. simpl in *. lia.
Qed.

Lemma header_loop_ends_in fuel : forall f_in hd,
  (String.length (rest f_in) < fuel)%nat -> ends (header_loop fuel f_in hd).
Proof.
  induction fuel as [|fuel IH]; intros f_in hd Hfuel; [lia|]. simpl.
  destruct (fgets FILENAME_MAX f_in) as [[l|] f1] eqn:E; [|apply ends_Ok].
  apply fgets_shrinks in E.
  destruct (String.eqb (c_str l) end_header); [apply ends_Ok|].
  apply IH. lia.
Qed.

Lemma header_ends f_in utm0 :
  ends (header_get_record_length_and_utm_zone f_in utm0).
Proof. apply header_loop_ends_in. lia. Qed.

Lemma parse_header_ends f_in utm0 : ends (parse_header f_in utm0).
Proof.
  unfold parse_header. destruct (header_fits f_in);
    [apply header_ends | discriminate].
Qed.

Lemma skip_ws_length s : (String.length (skip_ws s) <= String.length s)%nat.
Proof.
  induction s as [|c s IH]; simpl; [lia|].
  destruct (isspace c); simpl; lia.
Qed.

Lemma string_drop_length n : forall s,
  (n <= String.length s)%nat ->
  String.length (string_drop n s) = (String.length s - n)%nat.
Proof.
  induction n as [|n IH]; intros s Hn; simpl.
  - lia.
  - destruct s as [|c s]; simpl in *; [lia|]. apply IH. lia.
Qed.

(** One directive of [fscanf] on a stream not at its end: the stream does
    not grow, and it shrinks unless the value of the call is 0. *)
Lemma fscanf_float_left conv f r v f' :
  conversion_shrinks conv -> eof f = false ->
  fscanf_float conv f = (r, v, f') ->
  (stream_left f' <= stream_left f)%nat /\
  (r <> 0 -> (stream_left f' < stream_left f)%nat).
Proof.
  intros Hconv Heof. unfold fscanf_float, stream_left. rewrite Heof.
  pose proof (skip_ws_length (rest f)) as Hws.
  destruct (skip_ws (rest f)) as [|c s] eqn:Es.
  - intros H. injection H as <- _ <-. simpl. lia.
  - pose proof (Hconv (String c s)) as Hc.
    destruct (conv (String c s)) as [x rst|rst].
    + intros H. injection H as <- _ <-. simpl in *.
      destruct rst; simpl in *; lia.
    + intros H. injection H as <- _ <-. simpl in *.
      split; [destruct rst; simpl in *; lia | congruence].
Qed.

Lemma fread_left size f o f' :
  (0 < size)%nat -> fread size f = (o, f') ->
  (stream_left f' <= stream_left f)%nat /\
  (is_Some o -> (stream_left f' < stream_left f)%nat).
Proof.
  intros Hsize. unfold fread, stream_left.
  destruct (size <=? String.length (rest f))%nat eqn:E.
  - apply Nat.leb_le in E. intros H. injection H as <- <-. simpl.
    rewrite string_drop_length by exact E. lia.
  - intros H. injection H as <- <-. simpl.
    split; [lia|]. intros [? ?]. discriminate.
Qed.

Section Termination.
Context {libc : Libc}.
Hypothesis libc_ok : libc_shrinks libc.
Variable fs : gmap string string.
Variable push : list string -> string -> list string.

Lemma get_record_bin_step_left t rec data f i rec' data' f' :
  get_record_bin_step t (rec, data, f) i = (rec', data', f') ->
  (stream_left f' <= stream_left f)%nat /\
  (rec' <> rec -> (stream_left f' < stream_left f)%nat) /\
  length data' = length data.
Proof.
  unfold get_record_bin_step.
  assert (Hitem : forall size value, (0 < size)%nat ->
    match fread size f with
    | (Some bs, f1) => (rec + 1, <[i := Some (value bs)]> data, f1)
    | (None, f1) => (rec + 0, <[i := None]> data, f1)
    end = (rec', data', f') ->
    (stream_left f' <= stream_left f)%nat /\
    (rec' <> rec -> (stream_left f' < stream_left f)%nat) /\
    length data' = length data).
  { intros size value Hsize.
    destruct (fread size f) as [[bs|] f1] eqn:E;
      apply (fread_left _ _ _ _ Hsize) in E as [Hle Hlt];
      intros H; injection H as <- <- <-; rewrite length_insert;
      (split; [exact Hle|]); (split; [|reflexivity]); intros Hrec.
    - apply Hlt. eexists. reflexivity.
    - lia. }
  destruct (type <$> t !! i) as [[| | |]|].
  - apply (Hitem 1%nat). lia.
  - apply (Hitem 4%nat). lia.
  - apply (Hitem 8%nat). lia.
  - intros H. injection H as <- <- <-.
    split; [lia|]. split; [congruence | reflexivity].
  - intros H. injection H as <- <- <-.
    split; [lia|]. split; [congruence | reflexivity].
Qed.

Lemma get_record_bin_left t (l : list nat) : forall rec data f rec' data' f',
  fold_left (get_record_bin_step t) l (rec, data, f) = (rec', data', f') ->
  (stream_left f' <= stream_left f)%nat /\
  (rec' <> rec -> (stream_left f' < stream_left f)%nat) /\
  length data' = length data.
Proof.
  induction l as [|i l IH]; intros rec data f rec' data' f' H.
  - injection H as <- <- <-.
    split; [lia|]. split; [congruence | reflexivity].
  - cbn [fold_left] in H.
    destruct (get_record_bin_step t (rec, data, f) i) as [[rec1 data1] f1]
      eqn:Hstep.
    apply get_record_bin_step_left in Hstep as (H1 & H2 & H3).
    apply IH in H as (H4 & H5 & H6).
    split; [lia|]. split; [|congruence]. intros Hne.
    destruct (Z.eq_dec rec1 rec) as [->|Hn1].
    + specialize (H5 Hne). lia.
    + specialize (H2 Hn1). lia.
Qed.

Lemma get_record_ascii_left k : forall i rec data f rec' data' f',
  get_record_ascii_loop k i (rec, data, f) = (rec', data', f') ->
  (stream_left f' <= stream_left f)%nat /\
  (rec' <> rec -> (stream_left f' < stream_left f)%nat) /\
  length data' = length data.
Proof.
  induction k as [|k IH]; intros i rec data f rec' data' f' H;
    cbn [get_record_ascii_loop] in H.
  - injection H as <- <- <-.
    split; [lia|]. split; [congruence | reflexivity].
  - unfold feof in H. destruct (eof f) eqn:Heof.
    + injection H as <- <- <-.
      split; [lia|]. split; [congruence | reflexivity].
    + destruct (fscanf_float scan_lf f) as [[r v] f1] eqn:E.
      apply (fscanf_float_left _ _ _ _ _ (proj1 libc_ok) Heof) in E
        as [Hle Hlt].
      apply IH in H as (H4 & H5 & H6).
      assert (Hlen : length data' = length data).
      { rewrite H6. destruct v; [apply length_insert | reflexivity]. }
      split; [lia|]. split; [|exact Hlen]. intros Hne.
      destruct (Z.eq_dec r 0) as [->|Hr].
      * rewrite Z.add_0_r in H5. specialize (H5 Hne). lia.
      * specialize (Hlt Hr). lia.
Qed.

(** A call of [get_record] that does not return 0 has shortened the
    stream; [data] keeps its length. *)
Lemma get_record_left f isbin t n data rec data' f' :
  get_record f isbin t n data = (rec, data', f') ->
  (stream_left f' <= stream_left f)%nat /\
  (rec <> 0 -> (stream_left f' < stream_left f)%nat) /\
  length data' = length data.
Proof.
  unfold get_record. intros H. destruct isbin.
  - apply (get_record_bin_left _ _ _ _ _ _ _ _ H).
  - apply (get_record_ascii_left _ _ _ _ _ _ _ _ H).
Qed.

Lemma add_point_ends x xmin xmax ymin ymax col data :
  ends (add_point x xmin xmax ymin ymax col data).
Proof.
  unfold add_point.
  apply ends_bind; [apply ends_defined|]. intros d0.
  apply ends_bind; [apply ends_defined|]. intros [i flag1].
  apply ends_bind; [apply ends_defined|]. intros d1.
  apply ends_bind; [apply ends_defined|]. intros [j flag2].
  destruct (flag1 && flag2); [|apply ends_Ok].
  destruct (col =? 2).
  - apply ends_bind; [apply ends_defined|]. intros d2.
    apply ends_bind; [apply ends_defined|]. intros x'.
    destruct (IEEE.isfinite d2); [apply ends_Ok | discriminate].
  - apply ends_bind; [apply ends_defined|]. intros dc.
    apply ends_bind; [apply ends_defined|]. intros rgb.
    apply ends_defined.
Qed.

Lemma add_points_loop_ends xmin xmax ymin ymax col isbin t n fuel :
  forall x f data,
  length data = n -> (stream_left f < fuel)%nat ->
  ends (add_points_loop fuel x xmin xmax ymin ymax col isbin t n f data).
Proof.
  induction fuel as [|fuel IH]; intros x f data Hlen Hfuel; [lia|]. simpl.
  destruct (get_record f isbin t n data) as [[rec data'] f'] eqn:E.
  apply get_record_left in E as (Hle & Hlt & Hlen').
  destruct (Z.of_nat n =? u64 rec) eqn:Hrec; [|apply ends_Ok].
  destruct (Z.eq_dec rec 0) as [->|Hne].
  - apply Z.eqb_eq in Hrec. change (u64 0) with 0 in Hrec.
    assert (data' = []) as ->.
    { apply length_zero_iff_nil. lia. }
    unfold add_point. simpl. discriminate.
  - apply ends_bind; [apply add_point_ends|]. intros x'.
    apply IH; [congruence|]. specialize (Hlt Hne). lia.
Qed.

Lemma add_ply_points_ends st xmin xmax ymin ymax z fname col :
  ends (add_ply_points_to_images fs st xmin xmax ymin ymax z fname col).
Proof.
  unfold add_ply_points_to_images. destruct st as [x msgs].
  destruct (fs !! fname); [|apply ends_Ok].
  apply ends_bind; [apply parse_header_ends|]. intros [hd f].
  destruct ((col <? 2) || (col >? 5)); [discriminate|].
  apply ends_bind; [|intros x'; apply ends_Ok].
  apply add_points_loop_ends; [apply length_replicate | lia].
Qed.

Lemma ingest_ends a z l : forall st, ends (ingest fs a z l st).
Proof.
  induction l as [|current next IH]; intros st; simpl; [apply ends_Ok|].
  apply ends_bind; [apply add_ply_points_ends | apply IH].
Qed.

Lemma select_tile_ends a s l : ends (select_tile fs push a s l).
Proof.
  unfold select_tile. destruct (negb (word_fits 1000 _)); [discriminate|].
  destruct (fs !! _); [|apply ends_Ok].
  apply ends_bind; [apply ends_defined|]. intros [|]; [|apply ends_Ok].
  destruct (fs !! _); [|apply ends_Ok].
  apply ends_bind; [apply parse_header_ends|]. intros [hd f]. apply ends_Ok.
Qed.

Lemma select_loop_ends a fuel : forall f s,
  (String.length (rest f) < fuel)%nat ->
  ends (select_loop fs push fuel a f s).
Proof.
  induction fuel as [|fuel IH]; intros f s Hfuel; [lia|]. simpl.
  destruct (fgets 1000 f) as [[l|] f1] eqn:E; [|apply ends_Ok].
  apply fgets_shrinks in E.
  apply ends_bind; [apply select_tile_ends|]. intros s'. apply IH. lia.
Qed.

(** X15.  With a C library whose conversions use what they convert, the
    bounds the model gives its loops are never met: [main] ends by
    completion, by [exit], by a failed assertion or in undefined
    behaviour. *)
Theorem main_ends a : ends (main fs push a).
Proof.
  unfold main. destruct (negb (argc a =? 8)); [discriminate|].
  destruct (fs !! list_of_tiles a) as [contents|]; [|discriminate].
  apply ends_bind.
  { apply select_loop_ends. simpl. lia. }
  intros s. apply ends_bind; [apply ends_defined|]. intros w.
  apply ends_bind; [apply ends_defined|]. intros h.
  destruct ((0 <? w) && (0 <? h)); [|discriminate].
  apply ends_bind; [apply ingest_ends|]. intros [x msgs]. apply ends_Ok.
Qed.

End Termination.

Lemma digits_length s : forall acc k,
  let '(_, k', r) := Decimal.digits s acc k in
  (String.length r + k' = String.length s + k)%nat.
Proof.
  induction s as [|c s IH]; intros acc k; simpl; [lia|].
  destruct (Decimal.digit c) as [d|]; simpl; [|lia].
  specialize (IH (10 * acc + d) (S k)).
  destruct (Decimal.digits s (10 * acc + d) (S k)) as [[? k'] r]. lia.
Qed.

Lemma sign_length s :
  (String.length (snd (Decimal.sign s)) <= String.length s)%nat.
Proof.
  destruct s as [|c s]; simpl; [lia|].
  destruct c as [[] [] [] [] [] [] [] []]; simpl; lia.
Qed.

Lemma numeral_shrinks fmt : conversion_shrinks (Decimal.numeral fmt).
Proof.
  intros s. unfold Decimal.numeral. pose proof (sign_length s) as Hs.
  destruct (Decimal.sign s) as [neg s1]; simpl in Hs.
  pose proof (digits_length s1 0 0%nat) as H1.
  destruct (Decimal.digits s1 0 0%nat) as [[ip n1] s2].
  assert (Hcase : forall m n2 s3,
             (String.length s3 + n2 <= String.length s2)%nat ->
             match
               match (n1 + n2)%nat with
               | O => Mismatch s3
               | S _ => Converted (Decimal.round fmt neg m n2) s3
               end
             with
             | Converted _ r => (String.length r < String.length s)%nat
             | Mismatch r => (String.length r <= String.length s)%nat
             end).
  { intros m n2 s3 Hle. destruct (n1 + n2)%nat eqn:En; lia. }
  destruct s2 as [|c s2'].
  - apply Hcase. simpl. lia.
  - destruct (Ascii.eqb c ".") eqn:Ec.
    + apply Ascii.eqb_eq in Ec. subst c.
      pose proof (digits_length s2' ip 0%nat) as H2.
      destruct (Decimal.digits s2' ip 0%nat) as [[m n2] s3].
      apply Hcase. simpl in *. lia.
    + assert (Hne : c <> "."%char)
        by (intros ->; rewrite Ascii.eqb_refl in Ec; discriminate).
      destruct c as [[] [] [] [] [] [] [] []];
        try (exfalso; apply Hne; reflexivity);
        apply Hcase; simpl; lia.
Qed.

(** The library of the examples is such a library. *)
Lemma decimal_libc_shrinks : libc_shrinks Decimal.libc.
Proof. split; apply numeral_shrinks. Qed.

Lemma main_ends_witness :
  ends (main Examples.scene_fs push_last Examples.box_0_10).
Proof. apply (main_ends decimal_libc_shrinks). Defined.

(** ** The two encodings *)

Lemma outcome_fmap_fmap {A B C : Type} (g : A -> B) (k : B -> C)
    (o : outcome A) :
  (fun a => k (g a)) <$> o = k <$> (g <$> o).
Proof. destruct o; reflexivity. Qed.

Lemma string_app_length a : forall b,
  String.length (a +:+ b) = (String.length a + String.length b)%nat.
Proof.
  induction a as [|c a IH]; intros b; [reflexivity|].
  change (S (String.length (a +:+ b))
          = S (String.length a + String.length b)).
  rewrite IH. reflexivity.
Qed.

Lemma string_app_assoc a : forall b c, (a +:+ b) +:+ c = a +:+ (b +:+ c).
Proof.
  induction a as [|x a IH]; intros b c; [reflexivity|].
  change (String x ((a +:+ b) +:+ c) = String x (a +:+ (b +:+ c))).
  rewrite IH. reflexivity.
Qed.

Lemma string_take_app a : forall b, string_take (String.length a) (a +:+ b) = a.
Proof.
  induction a as [|c a IH]; intros b; [reflexivity|].
  change (String c (string_take (String.length a) (a +:+ b)) = String c a).
  rewrite IH. reflexivity.
Qed.

Lemma string_drop_app a : forall b, string_drop (String.length a) (a +:+ b) = b.
Proof.
  induction a as [|c a IH]; intros b; [reflexivity|].
  change (string_drop (String.length a) (a +:+ b) = b). apply IH.
Qed.

(** *** Bytes and the integers they hold *)

Lemma le_bytes_length n : forall bits, String.length (le_bytes n bits) = n.
Proof.
  induction n as [|n IH]; intros bits; simpl; [reflexivity|].
  rewrite IH. reflexivity.
Qed.

(** Reading back the bytes written gives the integer written. *)
Lemma le_bits_le_bytes n : forall bits,
  0 <= bits < 256 ^ Z.of_nat n -> le_bits (le_bytes n bits) = bits.
Proof.
  induction n as [|n IH]; intros bits H.
  - simpl in *. lia.
  - cbn [le_bytes le_bits].
    assert (Hmod : 0 <= bits mod 256 < 256) by (apply Z.mod_pos_bound; lia).
    rewrite IH.
    + rewrite N_ascii_embedding by lia. rewrite Z2N.id by lia.
      pose proof (Z.div_mod bits 256). lia.
    + rewrite Nat2Z.inj_succ in H. rewrite Z.pow_succ_r in H by lia.
      split; [apply Z.div_pos; lia | apply Z.div_lt_upper_bound; lia].
Qed.

Lemma fread_app bs tl e :
  fread (String.length bs) {| rest := bs +:+ tl; eof := e |}
  = (Some bs, {| rest := tl; eof := e |}).
Proof.
  unfold fread. cbn [rest eof]. rewrite string_app_length.
  replace (String.length bs <=? String.length bs + String.length tl)%nat
    with true by (symmetry; apply Nat.leb_le; lia).
  rewrite string_take_app, string_drop_app. reflexivity.
Qed.

Lemma u64_small_nat n : (n <= 100)%nat -> u64 (Z.of_nat n) = Z.of_nat n.
Proof. intros Hn. unfold u64. apply Z.mod_small. lia. Qed.

Section Encodings.
Context {libc : Libc}.
Variable fs : gmap string string.

(** *** One record *)

(** An item of a binary record is read whole and decoded to the number it
    denotes. *)
Lemma get_record_bin_item t i p bits rec data tl e :
  t !! i = Some p -> type p <> UNKNOWN -> item_fits p bits ->
  get_record_bin_step t
    (rec, data,
     {| rest := le_bytes (width (type p)) bits +:+ tl; eof := e |}) i
  = (rec + 1, <[i := Some (item_value (type p) bits)]> data,
     {| rest := tl; eof := e |}).
Proof.
  intros Hp Hty Hfit. unfold get_record_bin_step. rewrite Hp.
  cbn [fmap option_fmap option_map]. unfold item_fits in Hfit.
  pose proof (fread_app (le_bytes (width (type p)) bits) tl e) as Hr.
  rewrite le_bytes_length in Hr.
  destruct (type p); [| | |congruence]; cbn [width] in Hr, Hfit |- *;
    rewrite Hr, le_bits_le_bytes by exact Hfit; reflexivity.
Qed.

(** The [for] loop of the binary branch on the bytes of a point. *)
Lemma get_record_bin_items t2 : forall t1 items rec data tl e,
  Forall (fun p => type p <> UNKNOWN) t2 ->
  point_fits t2 items ->
  length data = (length t1 + length t2)%nat ->
  fold_left (get_record_bin_step (t1 ++ t2)) (seq (length t1) (length t2))
    (rec, data, {| rest := binary_record t2 items +:+ tl; eof := e |})
  = (rec + Z.of_nat (length t2),
     take (length t1) data ++ (Some <$> point_values t2 items),
     {| rest := tl; eof := e |}).
Proof.
  induction t2 as [|p t2 IH]; intros t1 items rec data tl e Hknown Hfit Hlen.
  - inversion Hfit; subst. cbn [length seq fold_left Z.of_nat] in *.
    rewrite Nat.add_0_r in Hlen. rewrite Z.add_0_r, <- Hlen, firstn_all.
    cbn. rewrite app_nil_r. reflexivity.
  - inversion Hfit as [|p' bits t2' items' Hitem Hrest]; subst.
    inversion Hknown as [|p' t2' Hty Hknown']; subst.
    cbn [length seq fold_left].
    change (binary_record (p :: t2) (bits :: items'))
      with (le_bytes (width (type p)) bits +:+ binary_record t2 items').
    rewrite string_app_assoc.
    rewrite (get_record_bin_item (t1 ++ p :: t2) (length t1) p bits);
      [|apply list_lookup_middle; reflexivity|exact Hty|exact Hitem].
    assert (Hlen1 : length (t1 ++ [p]) = S (length t1)).
    { rewrite length_app. simpl. lia. }
    specialize (IH (t1 ++ [p]) items' (rec + 1)
                  (<[length t1 := Some (item_value (type p) bits)]> data)
                  tl e Hknown' Hrest).
    rewrite <- app_assoc, Hlen1 in IH. cbn [app] in IH.
    cbn [length] in Hlen. rewrite IH by (rewrite length_insert; lia).
    replace (rec + 1 + Z.of_nat (length t2))
      with (rec + Z.of_nat (S (length t2))) by lia.
    rewrite (take_S_r _ _ (Some (item_value (type p) bits)))
      by (apply list_lookup_insert_eq; lia).
    rewrite take_insert_ge by lia. rewrite <- app_assoc. reflexivity.
Qed.

(** The binary branch on a stream at its end: no item is read. *)
Lemma get_record_bin_empty t (l : list nat) : forall rec data f,
  rest f = EmptyString ->
  exists data' f',
    fold_left (get_record_bin_step t) l (rec, data, f) = (rec, data', f').
Proof.
  induction l as [|i l IH]; intros rec data f Hf.
  - exists data, f. reflexivity.
  - cbn [fold_left]. unfold get_record_bin_step at 2, fread. rewrite Hf.
    destruct (type <$> t !! i) as [[| | |]|]; cbn [String.length Nat.leb];
      try rewrite Z.add_0_r; apply IH; try exact Hf; reflexivity.
Qed.

(** The [while] loop of the text branch on a text that spells the numbers
    [vs] and then [more]. *)
Lemma get_record_ascii_values vs : forall i rec data f more,
  spells scan_lf (rest f) (vs ++ more) ->
  (eof f = true -> rest f = EmptyString) ->
  (i + length vs <= length data)%nat ->
  exists f',
    get_record_ascii_loop (length vs) i (rec, data, f)
    = (rec + Z.of_nat (length vs),
       take i data ++ (Some <$> vs) ++ drop (i + length vs) data, f') /\
    spells scan_lf (rest f') more /\
    (eof f' = true -> rest f' = EmptyString).
Proof.
  induction vs as [|v vs IH]; intros i rec data f more Hsp Hinv Hlen.
  - exists f. split; [|split; assumption]. cbn.
    rewrite Z.add_0_r, Nat.add_0_r, take_drop. reflexivity.
  - cbn [app spells] in Hsp. cbn [length get_record_ascii_loop].
    unfold feof, fscanf_float.
    destruct (skip_ws (rest f)) as [|c s] eqn:Es; [contradiction|].
    destruct (eof f) eqn:Heof.
    { rewrite (Hinv eq_refl) in Es. discriminate. }
    destruct (scan_lf (String c s)) as [v' r|r]; [|contradiction].
    destruct Hsp as (-> & _ & Hsp). cbn [orb].
    destruct (IH (S i) (rec + 1) (<[i := Some v]> data)
                {| rest := r; eof := at_end r |} more) as (f' & Hloop & Hf').
    + exact Hsp.
    + cbn [rest eof]. destruct r; [reflexivity | discriminate].
    + rewrite length_insert. cbn [length] in Hlen. lia.
    + exists f'. split; [|exact Hf']. rewrite Hloop. cbn [length] in Hlen.
      replace (rec + 1 + Z.of_nat (length vs))
        with (rec + Z.of_nat (S (length vs))) by lia.
      rewrite (take_S_r _ _ (Some v)) by (apply list_lookup_insert_eq; lia).
      rewrite take_insert_ge by lia.
      rewrite drop_insert_lt by lia.
      replace (S i + length vs)%nat with (i + S (length vs))%nat by lia.
      rewrite <- app_assoc. reflexivity.
Qed.

(** The text branch when only white space is left: the call returns 0 or
    [EOF]. *)
Lemma get_record_ascii_end t n data f :
  skip_ws (rest f) = EmptyString -> (0 < n)%nat ->
  exists rec data' f',
    get_record f false t n data = (rec, data', f') /\ (rec = 0 \/ rec = -1).
Proof.
  intros Hws Hn. unfold get_record. destruct n as [|k]; [lia|].
  cbn [get_record_ascii_loop]. unfold feof. destruct (eof f).
  - eauto 6.
  - unfold fscanf_float. rewrite Hws.
    exists (-1), data, {| rest := EmptyString; eof := true |}.
    split; [|right; reflexivity]. destruct k; reflexivity.
Qed.

(** *** The loop over the records *)

Lemma point_values_length t items :
  point_fits t items -> length (point_values t items) = length t.
Proof.
  intros H. unfold point_values. rewrite length_zip_with.
  rewrite <- (Forall2_length _ _ _ H). lia.
Qed.

(** The loop on a binary stream that holds the points [points] and
    nothing else: the body runs on each point. *)
Lemma add_points_loop_binary t xmin xmax ymin ymax col :
  (0 < length t <= 100)%nat ->
  Forall (fun p => type p <> UNKNOWN) t ->
  forall points fuel x data e,
  Forall (point_fits t) points ->
  length data = length t ->
  (length points < fuel)%nat ->
  add_points_loop fuel x xmin xmax ymin ymax col true t (length t)
    {| rest := binary_records t points; eof := e |} data
  = add_records x xmin xmax ymin ymax col
      ((fun items => Some <$> point_values t items) <$> points).
Proof.
  intros Hn Hknown.
  induction points as [|items points IH]; intros fuel x data e Hfit Hlen Hfuel;
    (destruct fuel as [|fuel]; [simpl in Hfuel; lia|]);
    cbn [add_points_loop].
  - unfold get_record.
    destruct (get_record_bin_empty t (seq 0 (length t)) 0 data
                {| rest := binary_records t []; eof := e |} eq_refl)
      as (data' & f' & ->).
    replace (Z.of_nat (length t) =? u64 0) with false; [reflexivity|].
    symmetry. apply Z.eqb_neq. change (u64 0) with 0. lia.
  - apply Forall_cons in Hfit as [Hitems Hfit'].
    unfold get_record.
    change (binary_records t (items :: points))
      with (binary_record t items +:+ binary_records t points).
    rewrite (get_record_bin_items t [] items 0 data _ e Hknown Hitems Hlen).
    rewrite Z.add_0_l, u64_small_nat, Z.eqb_refl by lia.
    cbn [length]. rewrite take_0. cbn [app fmap list_fmap add_records].
    destruct (add_point x xmin xmax ymin ymax col _) as [x'| | | |];
      try reflexivity.
    cbn [mbind outcome_bind]. apply IH.
    + exact Hfit'.
    + rewrite length_fmap. apply point_values_length. exact Hitems.
    + simpl in Hfuel. lia.
Qed.

(** The loop on a text that spells the numbers of the points, [n] to a
    point, and nothing else. *)
Lemma add_points_loop_text t n xmin xmax ymin ymax col :
  (0 < n <= 100)%nat ->
  forall groups fuel x data f,
  Forall (fun g : list double => length g = n) groups ->
  spells scan_lf (rest f) (concat groups) ->
  (eof f = true -> rest f = EmptyString) ->
  length data = n ->
  (length groups < fuel)%nat ->
  add_points_loop fuel x xmin xmax ymin ymax col false t n f data
  = add_records x xmin xmax ymin ymax col
      ((fun g : list double => Some <$> g) <$> groups).
Proof.
  intros Hn.
  induction groups as [|g groups IH];
    intros fuel x data f Hlens Hsp Hinv Hlen Hfuel;
    (destruct fuel as [|fuel]; [simpl in Hfuel; lia|]);
    cbn [add_points_loop].
  - destruct (get_record_ascii_end t n data f Hsp (proj1 Hn))
      as (rec & data' & f' & -> & Hrec).
    replace (Z.of_nat n =? u64 rec) with false; [reflexivity|].
    symmetry. apply Z.eqb_neq.
    destruct Hrec as [-> | ->];
      [change (u64 0) with 0 | change (u64 (-1)) with (2 ^ 64 - 1)]; lia.
  - apply Forall_cons in Hlens as [Hg Hlens'].
    cbn [concat] in Hsp. unfold get_record.
    destruct (get_record_ascii_values g 0%nat 0 data f (concat groups)
                Hsp Hinv) as (f' & Hrec & Hsp' & Hinv'); [lia|].
    rewrite Hg in Hrec. rewrite Hrec.
    rewrite Z.add_0_l, u64_small_nat, Z.eqb_refl by lia.
    rewrite take_0, drop_ge, app_nil_r by (simpl; lia).
    cbn [app fmap list_fmap add_records].
    destruct (add_point x xmin xmax ymin ymax col _) as [x'| | | |];
      try reflexivity.
    cbn [mbind outcome_bind]. apply IH.
    + exact Hlens'.
    + exact Hsp'.
    + exact Hinv'.
    + rewrite length_fmap. exact Hg.
    + simpl in Hfuel. lia.
Qed.

(** *** What the header leaves *)

Lemma header_line_props hd buf :
  length (props (header_line hd buf)) =
  if is_format_line buf then length (props hd)
  else match parse_property_line buf with
       | Some _ => S (length (props hd))
       | None => length (props hd)
       end.
Proof.
  unfold header_line, is_format_line.
  destruct (String.eqb buf format_binary); [reflexivity|].
  destruct (String.eqb buf format_ascii); [reflexivity|]. cbn [orb].
  destruct (parse_property_line buf).
  - cbn [props]. rewrite length_app. simpl. lia.
  - destruct (strip_prefix _ buf); [|reflexivity].
    destruct (scan_projection buf); reflexivity.
Qed.

Lemma arrays_hold_line n buf lines hd :
  arrays_hold n (buf :: lines) = true -> length (props hd) = n ->
  (n <= 100)%nat ->
  arrays_hold (length (props (header_line hd buf))) lines = true /\
  (length (props (header_line hd buf)) <= 100)%nat.
Proof.
  intros H Hlen Hn. rewrite header_line_props, Hlen. cbn [arrays_hold] in H.
  destruct (is_format_line buf); [auto|].
  apply andb_true_iff in H as [H Hrest].
  apply andb_true_iff in H as [H _]. apply andb_true_iff in H as [H _].
  apply Nat.ltb_lt in H.
  destruct (parse_property_line buf); split; try exact Hrest; lia.
Qed.

(** A header the array [t[100]] holds declares at most 100 properties. *)
Lemma header_loop_props fuel : forall f hd hd' f',
  header_loop fuel f hd = Ok (hd', f') ->
  arrays_hold (length (props hd)) (header_lines fuel f) = true ->
  (length (props hd) <= 100)%nat ->
  (length (props hd') <= 100)%nat.
Proof.
  induction fuel as [|fuel IH]; intros f hd hd' f' H Hfit Hn;
    cbn [header_loop header_lines] in H, Hfit.
  - discriminate.
  - destruct (fgets FILENAME_MAX f) as [[l|] f1].
    + destruct (String.eqb (c_str l) end_header).
      * injection H as <- _.
        apply (arrays_hold_line _ _ _ hd Hfit eq_refl Hn).
      * destruct (arrays_hold_line _ _ _ hd Hfit eq_refl Hn) as [Hfit' Hn'].
        apply (IH _ _ _ _ H Hfit' Hn').
    + injection H as <- _. exact Hn.
Qed.

Lemma parse_header_props f_in u hd f' :
  parse_header f_in u = Ok (hd, f') -> (length (props hd) <= 100)%nat.
Proof.
  intros H. apply parse_header_Ok in H as [Hfit H].
  apply (header_loop_props _ _ _ _ _ H Hfit). simpl. lia.
Qed.

Lemma read_line_end k : forall s l r,
  read_line k s = (l, r, true) -> r = EmptyString.
Proof.
  induction k as [|k IH]; intros s l r H; simpl in H; [discriminate|].
  destruct s as [|c s]; [injection H as _ <-; reflexivity|].
  destruct (Ascii.eqb c nl); [discriminate|].
  destruct (read_line k s) as [[l1 r1] e1] eqn:E.
  injection H as _ <- ->. apply (IH _ _ _ E).
Qed.

(** The end-of-file indicator is set on a stream with nothing left. *)
Lemma fgets_end size f o f' :
  fgets size f = (o, f') ->
  (eof f = true -> rest f = EmptyString) ->
  eof f' = true -> rest f' = EmptyString.
Proof.
  unfold fgets.
  destruct (read_line (size - 1) (rest f)) as [[l r] e] eqn:E.
  intros H Hinv. assert (Hf : f' = {| rest := r; eof := eof f || e |})
    by (destruct l; injection H as _ <-; reflexivity).
  subst f'. cbn [rest eof]. intros Heof.
  destruct e; [apply (read_line_end _ _ _ _ E)|].
  rewrite orb_false_r in Heof. rewrite (Hinv Heof) in E.
  destruct (size - 1)%nat; simpl in E;
    [injection E as _ <-; reflexivity | discriminate].
Qed.

Lemma header_loop_end fuel : forall f hd hd' f',
  header_loop fuel f hd = Ok (hd', f') ->
  (eof f = true -> rest f = EmptyString) ->
  eof f' = true -> rest f' = EmptyString.
Proof.
  induction fuel as [|fuel IH]; intros f hd hd' f' H Hinv;
    cbn [header_loop] in H; [discriminate|].
  destruct (fgets FILENAME_MAX f) as [[l|] f1] eqn:E.
  - pose proof (fgets_end _ _ _ _ E Hinv) as Hinv1.
    destruct (String.eqb (c_str l) end_header).
    + injection H as _ <-. exact Hinv1.
    + apply (IH _ _ _ _ H Hinv1).
  - injection H as _ <-. apply (fgets_end _ _ _ _ E Hinv).
Qed.

(** *** Counting the records *)

Lemma binary_record_length t : forall items,
  point_fits t items -> String.length (binary_record t items) = record_size t.
Proof.
  induction t as [|p t IH]; intros items H; inversion H; subst;
    [reflexivity|].
  match goal with
  | Hr : Forall2 item_fits t ?l |- context [binary_record _ (?b :: ?l)] =>
      change (binary_record (p :: t) (b :: l))
        with (le_bytes (width (type p)) b +:+ binary_record t l);
      rewrite string_app_length, le_bytes_length, (IH _ Hr)
  end.
  reflexivity.
Qed.

Lemma record_size_known t :
  Forall (fun p => type p <> UNKNOWN) t -> (length t <= record_size t)%nat.
Proof.
  induction 1 as [|p t Hp _ IH]; simpl; [lia|].
  fold (record_size t). destruct (type p); simpl; try congruence; lia.
Qed.

Lemma binary_records_length t points :
  (0 < length t)%nat ->
  Forall (fun p => type p <> UNKNOWN) t ->
  Forall (point_fits t) points ->
  (length points <= String.length (binary_records t points))%nat.
Proof.
  intros Hn Hknown Hfit. apply record_size_known in Hknown.
  induction Hfit as [|items points Hitems _ IH]; [simpl; lia|].
  change (binary_records t (items :: points))
    with (binary_record t items +:+ binary_records t points).
  rewrite string_app_length, (binary_record_length _ _ Hitems). simpl. lia.
Qed.

Lemma spells_length conv vs : forall s,
  spells conv s vs -> (length vs <= String.length s)%nat.
Proof.
  induction vs as [|v vs IH]; intros s H; [simpl; lia|].
  cbn [spells] in H. pose proof (skip_ws_length s) as Hws.
  destruct (skip_ws s) as [|c s1]; [contradiction|].
  destruct (conv (String c s1)) as [v' r|r]; [|contradiction].
  destruct H as (_ & Hlt & H). apply IH in H. simpl in *. lia.
Qed.

Lemma cloud_values_length t points :
  (0 < length t)%nat ->
  Forall (point_fits t) points ->
  (length points <= length (cloud_values t points))%nat.
Proof.
  intros Hn Hfit. unfold cloud_values.
  induction Hfit as [|items points Hitems _ IH]; [simpl; lia|].
  cbn [fmap list_fmap concat]. rewrite length_app.
  rewrite (point_values_length _ _ Hitems).
  change (list_fmap _ _ (point_values t) points)
    with (point_values t <$> points). simpl. lia.
Qed.

(** X9.  A binary file and a text file that hold the same points, and
    whose headers the arrays of the reader hold, leave the same images,
    hence the same raster, when ingested into the same images with the
    same box and column: the headers declare as many properties,
    those of the binary file of types [get_record] knows; the binary file
    holds after its header the bytes of the items of the points, least
    significant first, and nothing else; the text file holds numerals that
    [%lf] converts to the numbers those items denote (an [unsigned char],
    a [float], a [double]), and nothing else but white space. *)
Theorem encodings_agree st xmin xmax ymin ymax zone col
    fname_b fname_a contents_b contents_a hd_b hd_a f_b f_a points :
  fs !! fname_b = Some contents_b ->
  fs !! fname_a = Some contents_a ->
  parse_header (fopen_contents contents_b) None = Ok (hd_b, f_b) ->
  parse_header (fopen_contents contents_a) None = Ok (hd_a, f_a) ->
  isbin hd_b = true -> isbin hd_a = false ->
  length (props hd_b) = length (props hd_a) ->
  Forall (fun p => type p <> UNKNOWN) (props hd_b) ->
  Forall (point_fits (props hd_b)) points ->
  rest f_b = binary_records (props hd_b) points ->
  spells scan_lf (rest f_a) (cloud_values (props hd_b) points) ->
  fst <$> add_ply_points_to_images fs st xmin xmax ymin ymax zone fname_b col
  = fst <$> add_ply_points_to_images fs st xmin xmax ymin ymax zone fname_a col
  /\
  (fun r => set_unknown (fst r))
    <$> add_ply_points_to_images fs st xmin xmax ymin ymax zone fname_b col
  = (fun r => set_unknown (fst r))
    <$> add_ply_points_to_images fs st xmin xmax ymin ymax zone fname_a col.
Proof.
  intros Hb Ha Hhb Hha Hbin Hasc Hn Hknown Hfit Hrest Hsp.
  assert (Himg :
    fst <$> add_ply_points_to_images fs st xmin xmax ymin ymax zone fname_b col
    = fst <$> add_ply_points_to_images fs st xmin xmax ymin ymax zone fname_a
                col).
  { unfold add_ply_points_to_images. destruct st as [x msgs].
    rewrite Hb, Ha, Hhb, Hha.
    cbn -[add_points_loop stream_left Z.ltb Z.gtb].
    destruct ((col <? 2) || (col >? 5)); [reflexivity|].
    rewrite Hbin, Hasc, <- Hn.
    pose proof (parse_header_props _ _ _ _ Hhb) as Hmax.
    assert (Hloops :
      add_points_loop (S (stream_left f_b)) x xmin xmax ymin ymax col true
        (props hd_b) (length (props hd_b)) f_b
        (replicate (length (props hd_b)) None)
      = add_points_loop (S (stream_left f_a)) x xmin xmax ymin ymax col false
          (props hd_a) (length (props hd_b)) f_a
          (replicate (length (props hd_b)) None)).
    { destruct (Nat.eq_dec (length (props hd_b)) 0%nat) as [Hzero|Hpos].
      - rewrite Hzero. reflexivity.
      - assert (Hlen : (0 < length (props hd_b) <= 100)%nat) by lia.
        destruct f_b as [rest_b eof_b]. cbn [rest] in Hrest. subst rest_b.
        rewrite (add_points_loop_binary _ xmin xmax ymin ymax col Hlen
                   Hknown points _ x _ eof_b Hfit).
        + rewrite (add_points_loop_text (props hd_a) _ xmin xmax ymin ymax
                     col Hlen (point_values (props hd_b) <$> points)
                     _ x _ f_a).
          * rewrite <- list_fmap_compose. reflexivity.
          * apply Forall_fmap. eapply Forall_impl; [exact Hfit|].
            intros items. apply point_values_length.
          * exact Hsp.
          * apply parse_header_Ok in Hha as [_ Hha].
            apply (header_loop_end _ _ _ _ _ Hha). discriminate.
          * apply length_replicate.
          * rewrite length_fmap. apply spells_length in Hsp.
            pose proof (cloud_values_length _ _ (proj1 Hlen) Hfit).
            unfold stream_left. lia.
        + apply length_replicate.
        + pose proof (binary_records_length _ _ (proj1 Hlen) Hknown Hfit).
          unfold stream_left. cbn [rest]. lia. }
    rewrite Hloops. clear Hloops.
    destruct (add_points_loop _ _ _ _ _ _ _ _ _ _ _ _); reflexivity. }
  split; [exact Himg|].
  rewrite !(outcome_fmap_fmap fst set_unknown), Himg. reflexivity.
Qed.

(** *** A zone of three characters *)

Lemma arrays_hold_zone lines : forall n buf,
  arrays_hold n lines = true -> buf ∈ lines -> zone_fits buf = true.
Proof.
  induction lines as [|l lines IH]; intros n buf H Hin; [inversion Hin|].
  cbn [arrays_hold] in H. apply elem_of_cons in Hin as [->|Hin].
  - destruct (is_format_line l) eqn:Hfmt.
    + unfold zone_fits, line_zone. rewrite Hfmt. reflexivity.
    + apply andb_true_iff in H as [H _]. apply andb_true_iff in H as [_ H].
      exact H.
  - destruct (is_format_line l); [apply (IH _ _ H Hin)|].
    apply andb_true_iff in H as [_ H]. apply (IH _ _ H Hin).
Qed.

(** C9.  The two encodings are not read alike on every input: the zone of
    a header is stored with its NUL in [char utm[3]], so that a file whose
    projection comment gives a zone of three characters or more, as in
    "31N", makes [add_ply_points_to_images] write past the array, next to
    which [isbin] is declared; what the file then yields, binary or text,
    is not determined by the program. *)
Theorem zone_overflows_utm st xmin xmax ymin ymax zone col fname contents
    buf file_zone :
  fs !! fname = Some contents ->
  buf ∈ header_lines (S (String.length contents)) (fopen_contents contents) ->
  line_zone buf = Some file_zone ->
  (3 <= String.length file_zone)%nat ->
  add_ply_points_to_images fs st xmin xmax ymin ymax zone fname col
  = Undefined.
Proof.
  intros Hfs Hin Hzone Hlen. unfold add_ply_points_to_images.
  destruct st as [x msgs]. rewrite Hfs. unfold parse_header.
  destruct (header_fits (fopen_contents contents)) eqn:Hfit; [|reflexivity].
  unfold header_fits in Hfit.
  pose proof (arrays_hold_zone _ _ _ Hfit Hin) as Hz.
  unfold zone_fits in Hz. rewrite Hzone in Hz. unfold word_fits in Hz.
  apply Nat.ltb_lt in Hz. lia.
Qed.

End Encodings.

Lemma zone_overflows_utm_witness :
  add_ply_points_to_images Examples.overflow_fs
    (Examples.blank 11 11, []) (Examples.flt "0") (Examples.flt "10")
    (Examples.flt "0") (Examples.flt "10") (Some "31N") "bin/cloud.ply" 2
  = Undefined.
Proof.
  apply (zone_overflows_utm Examples.overflow_fs (Examples.blank 11 11, [])
           (Examples.flt "0") (Examples.flt "10") (Examples.flt "0")
           (Examples.flt "10") (Some "31N") 2 "bin/cloud.ply"
           Examples.binary_cloud_31N
           (line "comment projection: UTM 31N") "31N").
  - reflexivity.
  - vm_compute. repeat constructor.
  - reflexivity.
  - simpl. lia.
Defined.

Lemma encodings_agree_witness :
  fst <$> add_ply_points_to_images Examples.pair_fs
            (Examples.blank 11 11, []) (Examples.flt "0") (Examples.flt "10")
            (Examples.flt "0") (Examples.flt "10") (Some "31")
            "bin/cloud.ply" 2
  = fst <$> add_ply_points_to_images Examples.pair_fs
              (Examples.blank 11 11, []) (Examples.flt "0") (Examples.flt "10")
              (Examples.flt "0") (Examples.flt "10") (Some "31")
              "txt/cloud.ply" 2
  /\
  (fun r => set_unknown (fst r))
    <$> add_ply_points_to_images Examples.pair_fs
          (Examples.blank 11 11, []) (Examples.flt "0") (Examples.flt "10")
          (Examples.flt "0") (Examples.flt "10") (Some "31")
          "bin/cloud.ply" 2
  = (fun r => set_unknown (fst r))
    <$> add_ply_points_to_images Examples.pair_fs
          (Examples.blank 11 11, []) (Examples.flt "0") (Examples.flt "10")
          (Examples.flt "0") (Examples.flt "10") (Some "31")
          "txt/cloud.ply" 2.
Proof.
  apply (encodings_agree Examples.pair_fs (Examples.blank 11 11, [])
           (Examples.flt "0") (Examples.flt "10") (Examples.flt "0")
           (Examples.flt "10") (Some "31") 2
           "bin/cloud.ply" "txt/cloud.ply"
           Examples.binary_cloud
           (Examples.text_cloud "31" ["2.5 2.5 5.0"])
           {| props := Examples.xyz; isbin := true; utm := Some "31" |}
           {| props := Examples.xyz; isbin := false; utm := Some "31" |}
           {| rest := binary_records Examples.xyz Examples.pair_points;
              eof := false |}
           {| rest := line "2.5 2.5 5.0"; eof := false |}
           Examples.pair_points).
  - reflexivity.
  - reflexivity.
  - vm_compute. reflexivity.
  - vm_compute. reflexivity.
  - reflexivity.
  - reflexivity.
  - reflexivity.
  - repeat constructor; discriminate.
  - constructor; [|constructor]. unfold point_fits.
    repeat (constructor; [unfold item_fits; simpl; lia|]). constructor.
  - reflexivity.
  - vm_compute. repeat split; lia.
Defined.

(** * Further properties *)

(** ** Binary records *)

Section BinaryRecords.
Context {libc : Libc}.

Lemma string_take_length n : forall s,
  (n <= String.length s)%nat -> String.length (string_take n s) = n.
Proof.
  induction n as [|n IH]; intros s Hn; simpl; [reflexivity|].
  destruct s as [|c s]; simpl in *; [lia|]. rewrite IH; lia.
Qed.

(** The items of a binary record, one property after the other: the value
    returned counts the items read whole, and it counts them all only if
    every property has a known type and the stream held the whole
    record. *)
Lemma get_record_bin_count t k : forall a rec data f rec' data' f',
  fold_left (get_record_bin_step t) (seq a k) (rec, data, f)
    = (rec', data', f') ->
  rec <= rec' <= rec + Z.of_nat k /\
  (rec' = rec + Z.of_nat k ->
   (forall i, (a <= i < a + k)%nat ->
      exists p, t !! i = Some p /\ type p <> UNKNOWN) /\
   (record_size (take k (drop a t)) <= String.length (rest f))%nat /\
   rest f' = string_drop (record_size (take k (drop a t))) (rest f) /\
   eof f' = eof f /\
   (forall i, (a <= i < a + k)%nat -> (i < length data)%nat ->
      exists v, data' !! i = Some (Some v))).
Proof.
  induction k as [|k IH]; intros a rec data f rec' data' f' H.
  - injection H as <- <- <-. split; [lia|]. intros _.
    split; [intros i Hi; lia|]. rewrite take_0. simpl.
    split; [lia|]. split; [reflexivity|]. split; [reflexivity|].
    intros i Hi; lia.
  - cbn [seq fold_left] in H.
    destruct (get_record_bin_step t (rec, data, f) a) as [[rec1 data1] f1]
      eqn:Hstep.
    destruct (IH _ _ _ _ _ _ _ H) as [Hrange Hfull].
    assert (Hstep' := Hstep). unfold get_record_bin_step in Hstep'.
    assert (Hitem : forall p size value,
      t !! a = Some p -> width (type p) = size -> (0 < size)%nat ->
      match fread size f with
      | (Some bs, f1') => (rec + 1, <[a := Some (value bs)]> data, f1')
      | (None, f1') => (rec + 0, <[a := None]> data, f1')
      end = (rec1, data1, f1) ->
      rec <= rec' <= rec + Z.of_nat (S k) /\
      (rec' = rec + Z.of_nat (S k) ->
       (forall i, (a <= i < a + S k)%nat ->
          exists p, t !! i = Some p /\ type p <> UNKNOWN) /\
       (record_size (take (S k) (drop a t)) <= String.length (rest f))%nat /\
       rest f' = string_drop (record_size (take (S k) (drop a t))) (rest f) /\
       eof f' = eof f /\
       (forall i, (a <= i < a + S k)%nat -> (i < length data)%nat ->
          exists v, data' !! i = Some (Some v)))).
    { intros p size value Hp Hw Hsize Hread.
      assert (Hknown : type p <> UNKNOWN).
      { intros E. rewrite E in Hw. simpl in Hw. lia. }
      rewrite (drop_S _ _ _ Hp). cbn [take record_size foldr].
      fold (record_size (take k (drop (S a) t))). rewrite Hw.
      unfold fread in Hread.
      destruct (size <=? String.length (rest f))%nat eqn:Esize.
      - apply Nat.leb_le in Esize. injection Hread as <- <- <-.
        split; [lia|]. intros Heq.
        destruct Hfull as (Hk & Hsz & Hrest & Heof & Hdata); [lia|].
        simpl in Hsz, Hrest, Heof.
        rewrite string_drop_length in Hsz by exact Esize.
        split.
        { intros i Hi. destruct (decide (i = a)) as [->|Hne].
          - exists p. auto.
          - apply Hk. lia. }
        split; [lia|]. split.
        { rewrite Hrest. clear. revert size.
          generalize (record_size (take k (drop (S a) t))) as m.
          generalize (rest f) as s. intros s m size. revert s.
          induction size as [|size IHs]; intros s; [reflexivity|].
          destruct s as [|c s]; simpl.
          - destruct m; reflexivity.
          - apply IHs. }
        split; [exact Heof|].
        intros i Hi Hlen. destruct (decide (i = a)) as [->|Hne].
        + clear -H Hlen. 
          assert (Hkeep : forall l st st',
                    fold_left (get_record_bin_step t) l st = st' ->
                    forall v, (forall j, In j l -> j <> a) ->
                    (st.1.2) !! a = Some (Some v) ->
                    (st'.1.2) !! a = Some (Some v)).
          { induction l as [|j l IHl]; intros st st' Hf v Hnot Hv.
            - simpl in Hf. subst. exact Hv.
            - simpl in Hf. apply (IHl _ _ Hf v).
              + intros j' Hj'. apply Hnot. right. exact Hj'.
              + destruct st as [[r d] g]. unfold get_record_bin_step.
                assert (Hja : j <> a) by (apply Hnot; left; reflexivity).
                destruct (type <$> t !! j) as [[| | |]|]; cbv beta zeta;
                  try exact Hv;
                  match goal with
                  | |- context [fread ?n g] =>
                      destruct (fread n g) as [[bs|] g']; cbn [fst snd];
                      rewrite list_lookup_insert_ne by exact Hja; exact Hv
                  end. }
          eexists.
          apply (Hkeep _ _ _ H).
          * intros j Hj. apply in_seq in Hj. lia.
          * simpl. apply list_lookup_insert_eq. exact Hlen.
        + apply Hdata; [lia|]. simpl. rewrite length_insert. exact Hlen.
      - injection Hread as <- <- <-. split; [lia|]. intros Heq. lia. }
    destruct (t !! a) as [p|] eqn:Hp;
      cbn [fmap option_fmap option_map] in Hstep'.
    + destruct (type p) eqn:Hty.
      * eapply (Hitem p 1%nat);
          [reflexivity | rewrite Hty; reflexivity | lia | exact Hstep'].
      * eapply (Hitem p 4%nat);
          [reflexivity | rewrite Hty; reflexivity | lia | exact Hstep'].
      * eapply (Hitem p 8%nat);
          [reflexivity | rewrite Hty; reflexivity | lia | exact Hstep'].
      * injection Hstep' as <- <- <-. split; [lia|]. intros Heq. lia.
    + injection Hstep' as <- <- <-. split; [lia|]. intros Heq. lia.
Qed.

Lemma get_record_bin_whole t k : forall a rec data f,
  (forall i, (a <= i < a + k)%nat ->
     exists p, t !! i = Some p /\ type p <> UNKNOWN) ->
  (record_size (take k (drop a t)) <= String.length (rest f))%nat ->
  exists data' f',
    fold_left (get_record_bin_step t) (seq a k) (rec, data, f)
      = (rec + Z.of_nat k, data', f').
Proof.
  induction k as [|k IH]; intros a rec data f Hknown Hsize.
  - exists data, f. simpl. rewrite Z.add_0_r. reflexivity.
  - destruct (Hknown a) as (p & Hp & Hty); [lia|].
    rewrite (drop_S _ _ _ Hp) in Hsize. cbn [take record_size foldr] in Hsize.
    fold (record_size (take k (drop (S a) t))) in Hsize.
    cbn [seq fold_left].
    assert (Hstep : exists v,
      get_record_bin_step t (rec, data, f) a =
      (rec + 1, <[a := Some v]> data,
       {| rest := string_drop (width (type p)) (rest f); eof := eof f |})).
    { unfold get_record_bin_step, fread. rewrite Hp.
      cbn [fmap option_fmap option_map].
      destruct (type p) eqn:Ety; try congruence; cbn [width] in Hsize |- *.
      - destruct (Nat.leb 1 (String.length (rest f))) eqn:E;
          [eexists; reflexivity | apply Nat.leb_gt in E; lia].
      - destruct (Nat.leb 4 (String.length (rest f))) eqn:E;
          [eexists; reflexivity | apply Nat.leb_gt in E; lia].
      - destruct (Nat.leb 8 (String.length (rest f))) eqn:E;
          [eexists; reflexivity | apply Nat.leb_gt in E; lia]. }
    destruct Hstep as [v ->].
    destruct (IH (S a) (rec + 1) (<[a := Some v]> data)
                {| rest := string_drop (width (type p)) (rest f);
                   eof := eof f |}) as (data' & f' & Hfold).
    + intros i Hi. apply Hknown. lia.
    + simpl. rewrite string_drop_length by lia. lia.
    + exists data', f'.
      replace (rec + Z.of_nat (S k)) with (rec + 1 + Z.of_nat k) by lia.
      exact Hfold.
Qed.

(** X1.  A binary record whose properties all have a known type and that
    the stream holds whole is read whole: [get_record] returns the number
    of properties, every entry of [data] is assigned, and the stream has
    moved by the sum of the widths (1, 4 or 8 bytes per property), its
    end-of-file indicator untouched. *)
Theorem binary_record_whole f t data :
  Forall (fun p => type p <> UNKNOWN) t ->
  (record_size t <= String.length (rest f))%nat ->
  length data = length t ->
  exists data',
    get_record f true t (length t) data =
      (Z.of_nat (length t), data',
       {| rest := string_drop (record_size t) (rest f); eof := eof f |}) /\
    forall i, (i < length t)%nat -> exists v, data' !! i = Some (Some v).
Proof.
  intros Hknown Hsize Hlen. unfold get_record.
  assert (Hall : forall i, (0 <= i < 0 + length t)%nat ->
            exists p, t !! i = Some p /\ type p <> UNKNOWN).
  { intros i Hi. destruct (lookup_lt_is_Some_2 t i) as [p Hp]; [lia|].
    exists p. split; [exact Hp|].
    exact (proj1 (Forall_lookup _ _) Hknown i p Hp). }
  destruct (get_record_bin_whole t (length t) 0%nat 0 data f Hall)
    as (data' & f' & Hfold).
  { rewrite drop_0, firstn_all. exact Hsize. }
  destruct (get_record_bin_count t _ _ _ _ _ _ _ _ Hfold) as [_ Hfull].
  destruct Hfull as (_ & _ & Hrest & Heof & Hdata); [reflexivity|].
  rewrite drop_0, firstn_all in Hrest.
  exists data'. rewrite Hfold. simpl. split.
  - destruct f' as [r e]. simpl in Hrest, Heof. subst. reflexivity.
  - intros i Hi. apply Hdata; lia.
Qed.

Lemma u64_below n rec : 0 <= rec < Z.of_nat n -> (Z.of_nat n =? u64 rec) = false.
Proof.
  intros Hrec. apply Z.eqb_neq. unfold u64.
  pose proof (Z.mod_le rec (2 ^ 64)) as Hle.
  assert (0 < 2 ^ 64) by reflexivity. lia.
Qed.

(** X2.  A binary record cut short by the end of the file is not used:
    when the stream holds fewer bytes than a record, the loop of
    [add_ply_points_to_images] ends at once and the images are as they
    were. *)
Theorem binary_record_cut_short fuel x xmin xmax ymin ymax col t f data :
  (String.length (rest f) < record_size t)%nat ->
  add_points_loop (S fuel) x xmin xmax ymin ymax col true t (length t) f data
    = Ok x.
Proof.
  intros Hshort. cbn [add_points_loop].
  destruct (get_record f true t (length t) data) as [[rec data'] f'] eqn:E.
  unfold get_record in E.
  destruct (get_record_bin_count t _ _ _ _ _ _ _ _ E) as [Hrange Hfull].
  rewrite u64_below; [reflexivity|].
  destruct (Z.eq_dec rec (0 + Z.of_nat (length t))) as [Heq|Hne]; [|lia].
  destruct (Hfull Heq) as (_ & Hsize & _).
  rewrite drop_0, firstn_all in Hsize. lia.
Qed.

(** X3.  No point is taken from a binary file that declares a property of
    a type other than [uchar], [float] and [double]: [get_record] never
    returns the number of properties, whatever the file holds, and the
    images are as they were. *)
Theorem binary_unknown_type_no_point fuel x xmin xmax ymin ymax col t f data
    i p :
  t !! i = Some p -> type p = UNKNOWN ->
  add_points_loop (S fuel) x xmin xmax ymin ymax col true t (length t) f data
    = Ok x.
Proof.
  intros Hp Hty. cbn [add_points_loop].
  destruct (get_record f true t (length t) data) as [[rec data'] f'] eqn:E.
  unfold get_record in E.
  destruct (get_record_bin_count t _ _ _ _ _ _ _ _ E) as [Hrange Hfull].
  rewrite u64_below; [reflexivity|].
  destruct (Z.eq_dec rec (0 + Z.of_nat (length t))) as [Heq|Hne]; [|lia].
  destruct (Hfull Heq) as (Hknown & _).
  destruct (Hknown i) as (p' & Hp' & Hty').
  - apply lookup_lt_Some in Hp. lia.
  - congruence.
Qed.

End BinaryRecords.

Lemma binary_record_whole_witness :
  exists data',
    get_record {| rest := Cases.record_bytes; eof := false |} true
      Examples.xyz (length Examples.xyz) Cases.blank3 =
      (Z.of_nat (length Examples.xyz), data',
       {| rest := string_drop (record_size Examples.xyz)
                    (rest {| rest := Cases.record_bytes; eof := false |});
          eof := eof {| rest := Cases.record_bytes; eof := false |} |}) /\
    forall i, (i < length Examples.xyz)%nat ->
      exists v, data' !! i = Some (Some v).
Proof.
  apply (binary_record_whole {| rest := Cases.record_bytes; eof := false |}
           Examples.xyz Cases.blank3).
  - repeat constructor; discriminate.
  - vm_compute. lia.
  - reflexivity.
Defined.

Lemma binary_record_cut_short_witness :
  add_points_loop 1 (Examples.blank 11 11) (Examples.flt "0")
    (Examples.flt "10") (Examples.flt "0") (Examples.flt "10") 2 true
    Examples.xyz (length Examples.xyz)
    {| rest := "0123456789"; eof := false |} Cases.blank3
  = Ok (Examples.blank 11 11).
Proof.
  apply (binary_record_cut_short 0 (Examples.blank 11 11)).
  vm_compute. lia.
Defined.

Lemma binary_unknown_type_no_point_witness :
  add_points_loop 1 (Examples.blank 11 11) (Examples.flt "0")
    (Examples.flt "10") (Examples.flt "0") (Examples.flt "10") 2 true
    Cases.xy_int (length Cases.xy_int)
    {| rest := Cases.record_bytes; eof := false |} Cases.blank3
  = Ok (Examples.blank 11 11).
Proof.
  apply (binary_unknown_type_no_point 0 (Examples.blank 11 11) _ _ _ _ _
           Cases.xy_int _ _ 2%nat
           {| type := UNKNOWN; name := "n"; len := None |});
    reflexivity.
Defined.

(** ** Text records *)

Section TextRecords.
Context {libc : Libc}.

(** X4.  The end of a text file ends its ingestion without an error: when
    only white space is left, [get_record] returns 0 or [EOF], never the
    number of properties, and the images are as they were. *)
Theorem text_end_of_data fuel x xmin xmax ymin ymax col t n f data :
  skip_ws (rest f) = EmptyString ->
  (0 < n)%nat -> Z.of_nat n <> 2 ^ 64 - 1 ->
  add_points_loop (S fuel) x xmin xmax ymin ymax col false t n f data = Ok x.
Proof.
  intros Hws Hn Hmax. cbn [add_points_loop]. unfold get_record.
  destruct n as [|k]; [lia|]. cbn [get_record_ascii_loop].
  unfold feof. destruct (eof f) eqn:Heof.
  - rewrite u64_below; [reflexivity | lia].
  - unfold fscanf_float. rewrite Hws.
    assert (Hrest : forall i,
      get_record_ascii_loop k i
        (0 + -1, data, {| rest := EmptyString; eof := true |})
      = (-1, data, {| rest := EmptyString; eof := true |})).
    { intros i. destruct k; reflexivity. }
    rewrite Hrest.
    replace (Z.of_nat (S k) =? u64 (-1)) with false; [reflexivity|].
    symmetry. apply Z.eqb_neq. change (u64 (-1)) with (2 ^ 64 - 1).
    exact Hmax.
Qed.

End TextRecords.

Lemma text_end_of_data_witness :
  add_points_loop 1 (Examples.blank 11 11) (Examples.flt "0")
    (Examples.flt "10") (Examples.flt "0") (Examples.flt "10") 2 false
    Examples.xyz 3 Cases.blank_tail Cases.blank3
  = Ok (Examples.blank 11 11).
Proof.
  apply (text_end_of_data 0 (Examples.blank 11 11)).
  - reflexivity.
  - lia.
  - discriminate.
Defined.

(** ** More on the header *)

Lemma read_line_app k : forall s l r e,
  read_line k s = (l, r, e) -> s = l +:+ r.
Proof.
  induction k as [|k IH]; intros s l r e H; simpl in H.
  - injection H as <- <- _. reflexivity.
  - destruct s as [|c s]; [injection H as <- <- _; reflexivity|].
    destruct (Ascii.eqb c nl); [injection H as <- <- _; reflexivity|].
    destruct (read_line k s) as [[l1 r1] e1] eqn:E.
    injection H as <- <- _. simpl. rewrite (IH _ _ _ _ E). reflexivity.
Qed.

(** [fgets] on a buffer of two bytes or more: a line delivered is the head
    of the stream, and the null pointer means the stream is empty. *)
Lemma fgets_app size f o f' :
  (2 <= size)%nat -> fgets size f = (o, f') ->
  match o with
  | Some l => rest f = l +:+ rest f'
  | None => rest f = EmptyString /\ rest f' = EmptyString
  end.
Proof.
  intros Hsize. unfold fgets.
  destruct (read_line (size - 1) (rest f)) as [[l r] e] eqn:E.
  pose proof (read_line_app _ _ _ _ _ E) as Happ.
  destruct l as [|c l]; intros H; injection H as <- <-; simpl.
  - destruct (size - 1)%nat as [|k] eqn:Ek; [lia|]. simpl in E.
    destruct (rest f) as [|c s]; [injection E as <-; auto|].
    destruct (Ascii.eqb c nl); [discriminate|].
    destruct (read_line k s) as [[l1 r1] e1]. discriminate.
  - exact Happ.
Qed.

Lemma header_loop_shape fuel : forall f_in hd hd' f',
  header_loop fuel f_in hd = Ok (hd', f') ->
  (exists pre, rest f_in = pre +:+ rest f') /\
  (rest f' <> EmptyString ->
   last (header_lines fuel f_in) = Some end_header) /\
  props hd' = props hd ++ omap line_property (header_lines fuel f_in).
Proof.
  induction fuel as [|fuel IH]; intros f_in hd hd' f' H;
    cbn [header_loop header_lines] in H |- *.
  - discriminate.
  - destruct (fgets FILENAME_MAX f_in) as [[l|] f1] eqn:Eg;
      apply fgets_app in Eg; try (unfold FILENAME_MAX; lia).
    + assert (Hprops : props (header_line hd (c_str l)) =
                       props hd ++ omap line_property [c_str l]).
      { change (omap line_property [c_str l])
          with (match line_property (c_str l) with
                | Some y => [y]
                | None => []
                end).
        unfold header_line, line_property, is_format_line.
        destruct (String.eqb (c_str l) format_binary);
          [cbn [orb props]; rewrite app_nil_r; reflexivity|].
        destruct (String.eqb (c_str l) format_ascii);
          [cbn [orb props]; rewrite app_nil_r; reflexivity|]. cbn [orb].
        destruct (parse_property_line (c_str l)); [reflexivity|].
        rewrite app_nil_r.
        destruct (strip_prefix _ (c_str l)); [|reflexivity].
        destruct (scan_projection (c_str l)); reflexivity. }
      destruct (String.eqb (c_str l) end_header) eqn:Eend.
      * injection H as <- <-. apply String.eqb_eq in Eend.
        split; [exists l; exact Eg|]. split; [rewrite Eend; reflexivity|].
        exact Hprops.
      * destruct (IH _ _ _ _ H) as ((pre & Hpre) & Hlast & Hp).
        split; [|split].
        -- exists (l +:+ pre). rewrite Eg, Hpre. symmetry.
           apply string_app_assoc.
        -- intros Hne. specialize (Hlast Hne).
           destruct (header_lines fuel f1) as [|y ys];
             [simpl in Hlast; discriminate | exact Hlast].
        -- rewrite Hp, Hprops, <- app_assoc. f_equal. symmetry.
           apply (omap_app line_property [c_str l] (header_lines fuel f1)).
    + injection H as <- <-. destruct Eg as [E1 E2].
      split; [exists EmptyString; rewrite E1, E2; reflexivity|].
      split; [intros Hne; contradiction|]. simpl. rewrite app_nil_r.
      reflexivity.
Qed.



(** X6.  The properties of a header are those of its property lines, in
    the order of the lines: the parser returns as many properties as there
    are lines, up to ["end_header\n"], that are not format lines and that
    [parse_property_line] accepts. *)
Theorem header_properties_in_order f_in utm0 hd f' :
  header_get_record_length_and_utm_zone f_in utm0 = Ok (hd, f') ->
  props hd =
  omap line_property (header_lines (S (String.length (rest f_in))) f_in).
Proof.
  intros H. destruct (header_loop_shape _ _ _ _ _ H) as (_ & _ & Hp).
  exact Hp.
Qed.

Lemma header_properties_in_order_witness :
  props Examples.binary_parsed =
  omap line_property
    (header_lines
       (S (String.length (rest (fopen_contents Examples.binary_cloud_31N))))
       (fopen_contents Examples.binary_cloud_31N)).
Proof.
  apply (header_properties_in_order (fopen_contents Examples.binary_cloud_31N)
           None Examples.binary_parsed
           {| rest := Cases.record_bytes; eof := false |}).
  vm_compute. reflexivity.
Defined.



(** ** The list of tiles *)

Lemma strtok_newline_started s :
  has_newline s = false ->
  strtok_newline_aux true (line s) = s.
Proof.
  induction s as [|c s IH]; [reflexivity|].
  change (line (String c s)) with (String c (line s)).
  cbn [strtok_newline_aux has_newline].
  destruct (Ascii.eqb c nl); [discriminate|].
  intros H. rewrite (IH H). reflexivity.
Qed.

(** X8.  [strtok] undoes the newline of a line of the list of tiles: a
    name that is not empty and holds no newline is recovered from its
    line as it is. *)
Theorem strtok_newline_of_line s :
  s <> EmptyString -> has_newline s = false ->
  strtok_newline (line s) = s.
Proof.
  intros Hne Hnl. destruct s as [|c s]; [congruence|].
  unfold strtok_newline.
  change (line (String c s)) with (String c (line s)).
  cbn [strtok_newline_aux has_newline] in Hnl |- *.
  destruct (Ascii.eqb c nl); [discriminate|].
  f_equal. apply strtok_newline_started. exact Hnl.
Qed.

Lemma strtok_newline_of_line_witness :
  strtok_newline (line "tiles/row_3") = "tiles/row_3".
Proof.
  apply (strtok_newline_of_line "tiles/row_3"); [discriminate | reflexivity].
Defined.

(** ** The driver *)





Section Driver.
Context {libc : Libc}.
Variable fs : gmap string string.
Variable push : list string -> string -> list string.






(** X11.  The statuses a run ends with before it writes anything: 1, when
    the count of arguments is not 8 or the list of tiles cannot be opened;
    or the number of characters of the message about the column, 21 at
    least, which the program passes to [exit] when the column is not one
    of 2 to 5 and a file at least was selected. *)
Theorem exit_statuses a code :
  main fs push a = Exit code ->
  code = 1 \/
  (code = bad_col_idx_status (col_idx a) /\ 21 <= code /\
   (col_idx a < 2 \/ 5 < col_idx a) /\
   exists contents s,
     fs !! list_of_tiles a = Some contents /\
     select_tiles fs push a contents = Ok s /\ sel_list s <> []).
Proof.
  unfold main. destruct (negb (argc a =? 8)).
  { intros H. injection H as <-. left. reflexivity. }
  destruct (fs !! list_of_tiles a) as [contents|].
  2: { intros H. injection H as <-. left. reflexivity. }
  destruct (select_tiles fs push a contents) as [s| c | | |] eqn:Hsel;
    cbn [mbind outcome_bind]; try discriminate.
  2: { exfalso. exact (select_loop_no_exit _ _ _ _ _ _ c Hsel). }
  destruct (side (xmin a) (xmax a) (resolution a)); [|discriminate].
  destruct (side (ymin a) (ymax a) (resolution a)); [|discriminate].
  cbn [defined mbind outcome_bind].
  destruct ((0 <? _) && (0 <? _)); [|discriminate].
  destruct (ingest _ _ _ _ _) as [[x msgs]| c | | |] eqn:Hing;
    cbn [mbind outcome_bind]; try discriminate.
  intros H. injection H as <-. right.
  assert (Hne : sel_list s <> []).
  { intros E. rewrite E in Hing. discriminate. }
  apply ingest_exit in Hing as [-> Hcol].
  split; [reflexivity|]. split; [apply bad_col_idx_status_min|].
  split; [exact Hcol|]. exists contents, s. auto.
Qed.

End Driver.


Lemma exit_statuses_witness :
  21 = 1 \/
  (21 = bad_col_idx_status (col_idx Examples.column_7) /\ 21 <= 21 /\
   (col_idx Examples.column_7 < 2 \/ 5 < col_idx Examples.column_7) /\
   exists contents s,
     Examples.scene_fs !! list_of_tiles Examples.column_7 = Some contents /\
     select_tiles Examples.scene_fs push_last Examples.column_7 contents
       = Ok s /\ sel_list s <> []).
Proof.
  apply (exit_statuses Examples.scene_fs push_last Examples.column_7 21).
  vm_compute. reflexivity.
Defined.

(** ** The overlap of two rectangles *)




(** ** The GeoTIFF key *)

(** X13.  A zone that [char utm[3]] holds has two characters at most, and
    [get_utm_zone_index_for_geotiff] looks for the hemisphere in the
    third: for a zone of two characters it finds the NUL there, prints
    "bad utm zone value" and returns 32000 plus the number of the zone,
    neither 326zz nor 327zz; for a shorter zone it reads past the end of
    the string. *)
Theorem zone_that_fits_has_no_hemisphere zone :
  word_fits 3 zone = true ->
  match get_utm_zone_index_for_geotiff zone with
  | Some (index, zone', bad) =>
      String.length zone = 2%nat /\ index = 32000 + atoi zone /\
      zone' = zone /\ bad = true
  | None => (String.length zone < 2)%nat
  end.
Proof.
  unfold word_fits. intros H. apply Nat.ltb_lt in H.
  destruct zone as [|a [|b [|c zone]]]; simpl in H; try lia.
  - simpl. lia.
  - simpl. lia.
  - unfold get_utm_zone_index_for_geotiff.
    cbn [char_at string_take String.length].
    change (Ascii.eqb NUL "N") with false.
    change (Ascii.eqb NUL "S") with false.
    cbv beta iota zeta. auto.
Qed.

Lemma zone_that_fits_has_no_hemisphere_witness :
  match get_utm_zone_index_for_geotiff "31" with
  | Some (index, zone', bad) =>
      String.length "31" = 2%nat /\ index = 32000 + atoi "31" /\
      zone' = "31"%string /\ bad = true
  | None => (String.length "31" < 2)%nat
  end.
Proof.
  apply (zone_that_fits_has_no_hemisphere "31"). reflexivity.
Defined.

(** ** The count of a cell *)

(** X14.  The count of a cell is a [float]: once it is 16777216, adding 1
    to it gives 16777216 again, so that no cell counts more than 2^24
    samples, whatever heights follow and however many. *)
Theorem count_saturates (vs : list float) : forall a,
  snd (fold_left cell_update vs (a, Examples.flt "16777216"))
  = Examples.flt "16777216".
Proof.
  induction vs as [|v vs IH]; intros a; [reflexivity|].
  cbn [fold_left]. unfold cell_update at 2.
  change (a_add (Examples.flt "16777216") a_one)
    with (Examples.flt "16777216").
  apply IH.
Qed.
